(** * BizLearn: the business-plan sectionizer of [src/lib/businessPlanGenerator.ts]

    A shallow embedding of [parseBusinessPlanSections], [formatSectionContent],
    [generateBusinessPlan] and [modifyBusinessPlan] with the host they talk
    to, the export functions and the form validation of the page, together
    with the properties the specification states about them.

    ECMAScript strings are sequences of UTF-16 code units and the regular
    expressions of the source carry no [u] flag, so they work on code units:
    a string is a list of code units, each a natural number. *)

From Stdlib Require Import String Ascii.
From Stdlib Require Import List Bool Arith NArith ZArith Lia.
From Stdlib Require DecimalString DecimalZ QArith.
Import ListNotations.

(* ################################################################## *)
(** * Part I: the model *)

(* ================================================================== *)
(** ** Strings and character classes *)

Definition char := N.
Definition jsstring := list char.

(** A literal of the source whose characters are all Basic Latin. *)
Definition lit (s : string) : jsstring :=
  map N_of_ascii (list_ascii_of_string s).

Definition LF : char := 10%N.
Definition SPACE : char := 32%N.
Definition STAR : char := 42%N.
Definition HASH : char := 35%N.
Definition DASH : char := 45%N.
Definition DOT : char := 46%N.
Definition BULLET : char := 8226%N.       (* U+2022 *)
Definition EMDASH : char := 8212%N.       (* U+2014 *)

(** LineTerminator: LF, CR, LS, PS. *)
Definition isLineTerminator (c : char) : bool :=
  (c =? 10)%N || (c =? 13)%N || (c =? 8232)%N || (c =? 8233)%N.

(** The class [\s], which is also what [trim] strips: WhiteSpace and
    LineTerminator. *)
Definition isSpace (c : char) : bool :=
  isLineTerminator c
  || (c =? 9)%N || (c =? 11)%N || (c =? 12)%N || (c =? 32)%N
  || (c =? 160)%N || (c =? 5760)%N
  || ((8192 <=? c)%N && (c <=? 8202)%N)
  || (c =? 8239)%N || (c =? 8287)%N || (c =? 12288)%N || (c =? 65279)%N.

(** The class [\d]. *)
Definition isDigit (c : char) : bool := (48 <=? c)%N && (c <=? 57)%N.

(** The class [[-•]]. *)
Definition isBulletMark (c : char) : bool := (c =? DASH)%N || (c =? BULLET)%N.

Definition isChar (c : char) : char -> bool := N.eqb c.

Fixpoint jsEqb (a b : jsstring) : bool :=
  match a, b with
  | [], [] => true
  | x :: a', y :: b' => (x =? y)%N && jsEqb a' b'
  | _, _ => false
  end.

Fixpoint startsWith (s p : jsstring) {struct p} : bool :=
  match p, s with
  | [], _ => true
  | y :: p', x :: s' => (x =? y)%N && startsWith s' p'
  | _ :: _, [] => false
  end.

(** [String.prototype.includes]. *)
Fixpoint includes (s sub : jsstring) : bool :=
  startsWith s sub ||
  match s with
  | [] => false
  | _ :: s' => includes s' sub
  end.

Fixpoint dropWhile (p : char -> bool) (s : jsstring) : jsstring :=
  match s with
  | [] => []
  | c :: t => if p c then dropWhile p t else s
  end.

(** [String.prototype.trim]. *)
Definition trim (s : jsstring) : jsstring :=
  rev (dropWhile isSpace (rev (dropWhile isSpace s))).

(** [String.prototype.split] with a one-unit separator: the empty string
    splits into one empty piece. *)
Fixpoint split (sep : char) (s : jsstring) : list jsstring :=
  match s with
  | [] => [[]]
  | c :: t =>
      if (c =? sep)%N then [] :: split sep t
      else match split sep t with
           | l :: ls => (c :: l) :: ls
           | [] => [[c]]
           end
  end.

(* ================================================================== *)
(** ** The regular expressions of the source

    Every pattern of the two functions is a sequence of line-start
    assertions and greedily quantified one-character classes.  [exec]
    is the backtracking matcher for such sequences: it answers with
    the number of code units the leftmost-greedy match consumes. *)

Inductive item : Type :=
| Bol (multiline : bool)
| Rep (cls : char -> bool) (lo : nat) (hi : option nat).

Definition regex := list item.

(** [prev] is the code unit before the current position, [None] at index 0. *)
Definition atLineStart (multiline : bool) (prev : option char) : bool :=
  match prev with
  | None => true
  | Some c => multiline && isLineTerminator c
  end.

Fixpoint countWhile (p : char -> bool) (cap : option nat) (s : jsstring) : nat :=
  match s with
  | [] => 0
  | c :: t =>
      match cap with
      | Some 0 => 0
      | _ => if p c then S (countWhile p (option_map pred cap) t) else 0
      end
  end.

(** The code unit before position [k] of [s], where [prev] precedes [s]. *)
Definition prevAt (prev : option char) (s : jsstring) (k : nat) : option char :=
  match k with
  | 0 => prev
  | S k' => match nth_error s k' with Some c => Some c | None => prev end
  end.

(** Try [lo + d], [lo + d - 1], ..., [lo] repetitions in turn. *)
Fixpoint backtrack (f : nat -> option nat) (lo d : nat) : option nat :=
  match f (lo + d) with
  | Some r => Some r
  | None => match d with
            | 0 => None
            | S d' => backtrack f lo d'
            end
  end.

Fixpoint exec (re : regex) (prev : option char) (s : jsstring) : option nat :=
  match re with
  | [] => Some 0
  | Bol m :: r => if atLineStart m prev then exec r prev s else None
  | Rep cls lo hi :: r =>
      let n := countWhile cls hi s in
      if n <? lo then None
      else backtrack
             (fun k => option_map (Nat.add k)
                         (exec r (prevAt prev s k) (skipn k s)))
             lo (n - lo)
  end.

(** [String.prototype.replace] with a [g] pattern: scan left to right,
    replace each match, resume after it; an empty match is replaced and
    the scan advances by one unit.  [skip] counts the units of the
    current match still to be passed over. *)
Fixpoint replaceFrom (re : regex) (repl : jsstring)
         (skip : nat) (prev : option char) (s : jsstring) : jsstring :=
  match s with
  | [] => match skip, exec re prev [] with
          | 0, Some _ => repl
          | _, _ => []
          end
  | c :: t =>
      match skip with
      | S k => replaceFrom re repl k (Some c) t
      | 0 =>
          match exec re prev s with
          | Some (S k) => repl ++ replaceFrom re repl k (Some c) t
          | Some 0 => repl ++ c :: replaceFrom re repl 0 (Some c) t
          | None => c :: replaceFrom re repl 0 (Some c) t
          end
      end
  end.

Definition replaceAll (re : regex) (repl : jsstring) (s : jsstring) : jsstring :=
  replaceFrom re repl 0 None s.

(** [RegExp.prototype.test] / a truthy [String.prototype.match] for a
    pattern without [g]: the first position where the pattern matches. *)
Fixpoint search (re : regex) (prev : option char) (s : jsstring) : bool :=
  match exec re prev s with
  | Some _ => true
  | None => match s with
            | [] => false
            | c :: t => search re (Some c) t
            end
  end.

Definition one (cls : char -> bool) : item := Rep cls 1 (Some 1).

(** [/\*\*/g] *)
Definition reBold : regex := [one (isChar STAR); one (isChar STAR)].
(** [/\*/g] *)
Definition reStar : regex := [one (isChar STAR)].
(** [/#{1,6}\s/g] *)
Definition reHeading : regex := [Rep (isChar HASH) 1 (Some 6); one isSpace].
(** [/^\s*[-•]\s/gm] *)
Definition reBullet : regex := [Bol true; Rep isSpace 0 None; one isBulletMark; one isSpace].
(** [/\n{3,}/g] *)
Definition reBreaks : regex := [Rep (isChar LF) 3 None].
(** [/^\s+/gm] *)
Definition reIndent : regex := [Bol true; Rep isSpace 1 None].
(** [/^\d+\./] *)
Definition reNumbered : regex := [Bol false; Rep isDigit 1 None; one (isChar DOT)].

Definition bulletPrefix : jsstring := [BULLET; SPACE].
Definition twoBreaks : jsstring := [LF; LF].

(* ================================================================== *)
(** ** The two passes of [parseBusinessPlanSections] *)

(** The global cleanup at the head of [parseBusinessPlanSections]. *)
Definition cleanContent (content : jsstring) : jsstring :=
  trim
    (replaceAll reBreaks twoBreaks
       (replaceAll reBullet bulletPrefix
          (replaceAll reHeading []
             (replaceAll reStar []
                (replaceAll reBold [] content))))).

Definition formatSectionContent (content : jsstring) : jsstring :=
  trim
    (replaceAll reIndent []
       (replaceAll reBreaks twoBreaks
          (replaceAll reBullet bulletPrefix
             (replaceAll reStar []
                (replaceAll reBold [] content))))).

Record BusinessPlanSection : Type := mkSection {
  title : jsstring;
  content : jsstring
}.

Definition sectionHeaders : list jsstring :=
  [ lit "Executive Summary";
    lit "Company Description";
    lit "Market Analysis";
    lit "Organization & Management";
    lit "Products or Services";
    lit "Marketing & Sales Strategy";
    lit "Financial Projections";
    lit "Risk Analysis";
    lit "Implementation Timeline";
    lit "Appendices" ].

Definition nonEmpty (s : jsstring) : bool :=
  match s with [] => false | _ => true end.

(** The state of the line loop: the sections pushed so far,
    [currentSection] and [currentContent]. *)
Record scanState : Type := mkScan {
  sections : list BusinessPlanSection;
  currentSection : jsstring;
  currentContent : jsstring
}.

Definition initScan : scanState := mkScan [] [] [].

(** The guarded [sections.push] that occurs at a header and after the loop. *)
Definition pushCurrent (st : scanState) : list BusinessPlanSection :=
  if nonEmpty (currentSection st) && nonEmpty (trim (currentContent st))
  then sections st ++
       [mkSection (currentSection st)
                  (formatSectionContent (trim (currentContent st)))]
  else sections st.

Definition fallbackTitle : jsstring := lit "Business Plan".

Section LineScan.

(** [String.prototype.toLowerCase] depends on the Unicode case tables of
    the host; the line loop is stated over any such function. *)
Variable toLowerCase : jsstring -> jsstring.

(** The predicate given to [sectionHeaders.find]. *)
Definition headerTest (trimmedLine header : jsstring) : bool :=
  includes (toLowerCase trimmedLine) (toLowerCase header)
  && (search reNumbered None trimmedLine
      || jsEqb (toLowerCase trimmedLine) (toLowerCase header)).

Definition matchedHeader (line : jsstring) : option jsstring :=
  find (headerTest (trim line)) sectionHeaders.

(** One iteration of [for (const line of lines)]. *)
Definition scanLine (st : scanState) (line : jsstring) : scanState :=
  match matchedHeader line with
  | Some header => mkScan (pushCurrent st) header []
  | None =>
      mkScan (sections st) (currentSection st)
             (currentContent st ++ line ++ [LF])
  end.

(** The sections collected by the loop and the push after it. *)
Definition scanLines (lines : list jsstring) : list BusinessPlanSection :=
  pushCurrent (fold_left scanLine lines initScan).

Definition parseBusinessPlanSections (content : jsstring)
  : list BusinessPlanSection :=
  let clean := cleanContent content in
  match scanLines (split LF clean) with
  | [] => [mkSection fallbackTitle (formatSectionContent clean)]
  | secs => secs
  end.

End LineScan.

(* ================================================================== *)
(** ** Lower-casing of plain text *)

(** Lower-casing of a code unit of Basic Latin. *)
Definition lowerUnit (c : char) : char :=
  if (65 <=? c)%N && (c <=? 90)%N then (c + 32)%N else c.

(** Code units on which [toLowerCase] is known without the case tables:
    Basic Latin, and the General Punctuation block (which holds the bullet
    and the dashes and no cased letter). *)
Definition isPlain (c : char) : bool :=
  (c <? 128)%N || ((8192 <=? c)%N && (c <=? 8303)%N).

Definition lowerPlain (s : jsstring) : jsstring := map lowerUnit s.

(** What is assumed of the host's [toLowerCase] where a concrete
    input is evaluated. *)
Definition LowersPlain (toLowerCase : jsstring -> jsstring) : Prop :=
  forall s, forallb isPlain s = true -> toLowerCase s = lowerPlain s.

(* ================================================================== *)
(** ** Plans as objects

    Plans are objects: a heap maps references to records, and the object
    literals of [generateBusinessPlan] and [modifyBusinessPlan] allocate
    a new record. *)

Module Plan.

Inductive Status : Type := draft | complete.

Record t : Type := make {
  id : jsstring;
  title : jsstring;
  industry : jsstring;
  createdAt : Z;        (* the milliseconds of the [Date] *)
  sections : list BusinessPlanSection;
  status : Status
}.

End Plan.

Definition GeneratedBusinessPlan := Plan.t.
Definition ref := nat.
Definition heap := list GeneratedBusinessPlan.

Definition deref (h : heap) (r : ref) : option GeneratedBusinessPlan :=
  nth_error h r.

(** [new]: the fresh reference and the extended heap. *)
Definition alloc (h : heap) (p : GeneratedBusinessPlan) : heap * ref :=
  (h ++ [p], length h).

(* ================================================================== *)
(** ** Values read from JSON

    [response.json()] yields what [JSON.parse] builds: [null], booleans,
    numbers, strings, arrays and plain objects whose properties are own
    data properties. *)

(** A number read from JSON is a double other than NaN: a rational, or
    an infinity when the literal overflows. *)
Inductive number : Type :=
| Finite (q : QArith_base.Q)
| Infinity (negative : bool).

#[local] Set Warnings "-register-all".

Inductive json : Type :=
| JNull
| JBool (b : bool)
| JNumber (n : number)
| JString (s : jsstring)
| JArray (items : list json)
| JObject (members : list (jsstring * json)).

(** A value the methods handle is [undefined] ([None]) or was read from
    JSON. *)
Definition value := option json.

(** The own property [name] of a parsed object; of members of one name
    [JSON.parse] keeps the last. *)
Fixpoint lookup (name : jsstring) (members : list (jsstring * json)) : value :=
  match members with
  | [] => None
  | (k, v) :: rest =>
      match lookup name rest with
      | Some w => Some w
      | None => if jsEqb k name then Some v else None
      end
  end.

Definition isZero (n : number) : bool :=
  match n with
  | Finite q => (QArith_base.Qnum q =? 0)%Z
  | Infinity _ => false
  end.

(** [ToBoolean]: what [||] tests. *)
Definition truthy (x : value) : bool :=
  match x with
  | None | Some JNull => false
  | Some (JBool b) => b
  | Some (JNumber n) => negb (isZero n)
  | Some (JString s) => nonEmpty s
  | Some (JArray _) | Some (JObject _) => true
  end.

(** Whether [ToString] returns.  No value read from JSON is callable, so
    an object with a member [toString] has no usable [toString], and
    [Object.prototype.valueOf] returns the object itself: a [TypeError].
    Any other object is ["[object Object]"]; an array is joined, each
    element converted in turn, [null] to the empty string. *)
Fixpoint stringifiable (x : json) : bool :=
  match x with
  | JArray items =>
      forallb (fun e => match e with JNull => true | _ => stringifiable e end)
              items
  | JObject members =>
      negb (existsb (fun m => jsEqb (fst m) (lit "toString")) members)
  | _ => true
  end.

(* ================================================================== *)
(** ** Errors, [try] and [catch] *)

(** The [Error] a call of one of the two methods is rejected with. *)
Inductive failure : Type :=
| KeyNotConfigured
| InvalidKey                        (* status 401 *)
| InsufficientCredits               (* status 402 *)
| RateLimited                       (* status 429 *)
| RequestFailed (message : value)   (* the body's [error.message]; [None]
                                       stands for the text with the status *)
| TypeError                         (* raised by an expression of the method *)
| HostError (message : jsstring)    (* an [Error] the host rejected with *)
| GenerationFailed                  (* the [catch] of [generateBusinessPlan] *)
| ModificationFailed.               (* the [catch] of [modifyBusinessPlan] *)

(** What a [try] block throws: an instance of [Error], or any other
    value. *)
Inductive thrown : Type :=
| ThrowError (e : failure)
| ThrowOther.

Definition throw {A : Type} (e : failure) : thrown + A := inl (ThrowError e).

Definition bind {A B : Type} (m : thrown + A) (k : A -> thrown + B)
  : thrown + B :=
  match m with
  | inl t => inl t
  | inr a => k a
  end.

Notation "'let*' x ':=' m 'in' k" :=
  (bind m (fun x => k))
    (at level 10, x name, m at level 100, k at level 200).

(** [catch (error) { if (error instanceof Error) throw error;
    throw new Error(generic) }] *)
Definition tryCatch {A : Type} (generic : failure) (block : thrown + A)
  : failure + A :=
  match block with
  | inr a => inr a
  | inl (ThrowError e) => inl e
  | inl ThrowOther => inl generic
  end.

(** [x.name] for a name that no prototype defines, as [choices],
    [error], [message] and [content]: a read from [null] or [undefined]
    throws; arrays, strings, numbers and booleans have no such property. *)
Definition get (name : jsstring) (x : value) : thrown + value :=
  match x with
  | None | Some JNull => throw TypeError
  | Some (JObject members) => inr (lookup name members)
  | Some _ => inr None
  end.

(** [x[0]]: the first element of an array, the first code unit of a
    string, the property ["0"] of an object. *)
Definition first (x : value) : thrown + value :=
  match x with
  | None | Some JNull => throw TypeError
  | Some (JArray items) => inr (hd_error items)
  | Some (JString s) =>
      inr (match s with [] => None | c :: _ => Some (JString [c]) end)
  | Some (JObject members) => inr (lookup (lit "0") members)
  | Some _ => inr None
  end.

(** [x?.name], for such a name. *)
Definition getOptional (name : jsstring) (x : value) : value :=
  match x with
  | Some (JObject members) => lookup name members
  | _ => None
  end.

(** [x || fallback] *)
Definition orElse (x : value) (fallback : jsstring) : value :=
  if truthy x then x else Some (JString fallback).

(* ================================================================== *)
(** ** The host

    The host supplies what the methods read from outside: the configured
    key, how the request ends (the promise of [fetch] settles; an error
    raised while the request is built counts as its rejection), how the
    promise of [response.json()] settles, and the clock as read by
    [Date.now()] and by [new Date()]. *)

(** The reason of a rejection: an instance of [Error] (a network
    [TypeError], the [SyntaxError] of [JSON.parse]), or any other value. *)
Inductive reason : Type :=
| AnError (message : jsstring)
| NotAnError.

Inductive settled (A : Type) : Type :=
| Fulfilled (a : A)
| Rejected (r : reason).

Arguments Fulfilled {A} a.
Arguments Rejected {A} r.

Definition await {A : Type} (p : settled A) : thrown + A :=
  match p with
  | Fulfilled a => inr a
  | Rejected (AnError message) => throw (HostError message)
  | Rejected NotAnError => inl ThrowOther
  end.

Record Response : Type := mkResponse {
  ok : bool;
  httpStatus : N;
  body : settled json       (* [response.json()] *)
}.

Record Host : Type := mkHost {
  apiKey : jsstring;        (* empty when the variable is not set *)
  fetched : settled Response;
  dateNow : Z;              (* milliseconds read by [Date.now()] *)
  newDate : Z               (* milliseconds held by [new Date()] *)
}.

(** [Number.prototype.toString] of an integral number of milliseconds. *)
Definition numberToString (z : Z) : jsstring :=
  lit (DecimalString.NilEmpty.string_of_int (Z.to_int z)).

Definition modifiedSuffix : jsstring := lit " (Modified)".
Definition keyPlaceholder : jsstring := lit "your_openrouter_api_key_here".
Definition failedToModify : jsstring := lit "Failed to modify business plan.".

(* ================================================================== *)
(** ** What both methods do with the response *)

(** [await response.json().catch(() => ({}))] *)
Definition errorDataOf (response : Response) : json :=
  match body response with
  | Fulfilled data => data
  | Rejected _ => JObject []
  end.

(** [throw new Error(message || `API request failed with status ...`)]:
    the constructor converts a message that is not [undefined] to a
    string. *)
Definition throwRequestFailed {A : Type} (message : value) : thrown + A :=
  if truthy message
  then match message with
       | Some m => if stringifiable m then throw (RequestFailed message)
                   else throw TypeError
       | None => throw (RequestFailed None)
       end
  else throw (RequestFailed None).

(** The block [if (!response.ok) { ... }]. *)
Definition checkStatus (response : Response) : thrown + unit :=
  if negb (ok response) then
    let errorData := errorDataOf response in
    if (httpStatus response =? 401)%N then throw InvalidKey
    else if (httpStatus response =? 402)%N then throw InsufficientCredits
    else if (httpStatus response =? 429)%N then throw RateLimited
    else
      let* error := get (lit "error") (Some errorData) in
      throwRequestFailed (getOptional (lit "message") error)
  else inr tt.

(** [data.choices[0]?.message?.content] *)
Definition completionOf (data : json) : thrown + value :=
  let* choices := get (lit "choices") (Some data) in
  let* choice := first choices in
  inr (getOptional (lit "content") (getOptional (lit "message") choice)).

Section Sectionize.

Variable toLowerCase : jsstring -> jsstring.

(** [this.parseBusinessPlanSections(content)] for any value: the method
    opens with [content.replace], which only a string has. *)
Definition sectionsOf (content : value) : thrown + list BusinessPlanSection :=
  match content with
  | Some (JString s) => inr (parseBusinessPlanSections toLowerCase s)
  | _ => throw TypeError
  end.

End Sectionize.

(* ================================================================== *)
(** ** [modifyBusinessPlan] *)

Definition modifyBusinessPlan
           (toLowerCase : jsstring -> jsstring) (host : Host)
           (h : heap) (businessPlan : ref) : failure + heap * ref :=
  if negb (nonEmpty (apiKey host)) || jsEqb (apiKey host) keyPlaceholder
  then inl KeyNotConfigured
  else
    tryCatch ModificationFailed
      ((* [formatBusinessPlanForModification] reads [businessPlan.title] *)
       let* plan := match deref h businessPlan with
                    | Some plan => inr plan
                    | None => throw TypeError
                    end in
       let* response := await (fetched host) in
       let* _ := checkStatus response in
       let* data := await (body response) in
       let* completion := completionOf data in
       let modifiedContent := orElse completion failedToModify in
       let* sections := sectionsOf toLowerCase modifiedContent in
       (* [{...businessPlan, id, title, createdAt, sections, status}]:
          of the spread fields only [industry] is not overwritten *)
       inr (alloc h
              (Plan.make (numberToString (dateNow host))
                         (Plan.title plan ++ modifiedSuffix)
                         (Plan.industry plan)
                         (newDate host)
                         sections
                         Plan.complete))).

(** What a successful call establishes, from heap [h] and the reference
    [businessPlan] to heap [h'] and the returned reference [r']. *)
Definition mintedFrom (host : Host) (h h' : heap) (businessPlan r' : ref) : Prop :=
  exists plan plan',
    deref h businessPlan = Some plan
    /\ (forall q, q < length h -> deref h' q = deref h q)
    /\ deref h' businessPlan = Some plan
    /\ r' <> businessPlan
    /\ deref h r' = None
    /\ deref h' r' = Some plan'
    /\ Plan.id plan' = numberToString (dateNow host)
    /\ Plan.title plan' = Plan.title plan ++ lit " (Modified)"
    /\ Plan.createdAt plan' = newDate host
    /\ Plan.industry plan' = Plan.industry plan.

(* ================================================================== *)
(** ** The passes as scanners, and what they establish *)

(** [fixedBy re repl prev s]: wherever the pattern matches in [s], the
    matched text is the replacement text itself. *)
Fixpoint fixedBy (re : regex) (repl : jsstring)
         (prev : option char) (s : jsstring) : Prop :=
  match exec re prev s with
  | None => True
  | Some n => n <> 0 /\ firstn n s = repl
  end /\
  match s with
  | [] => True
  | c :: t => fixedBy re repl (Some c) t
  end.

(** Length of the text [/\s*[-•]\s/] matches at the head of [s]. *)
Definition bulletLen (s : jsstring) : option nat :=
  let n := countWhile isSpace None s in
  match skipn n s with
  | c :: d :: _ => if isBulletMark c && isSpace d then Some (n + 2) else None
  | _ => None
  end.

(** [atLineStarts q bol s]: [q] holds of the rest of the string at every
    position of [s] where [/^/m] matches; [bol] tells whether the head of
    [s] is such a position. *)
Fixpoint atLineStarts (q : jsstring -> bool) (bol : bool) (s : jsstring) : bool :=
  (if bol then q s else true) &&
  match s with
  | [] => true
  | c :: t => atLineStarts q (isLineTerminator c) t
  end.

Definition headSpace (s : jsstring) : bool :=
  match s with
  | c :: _ => isSpace c
  | [] => false
  end.

(** The text does not open with whitespace. *)
Definition unindented (s : jsstring) : bool := negb (headSpace s).

(** The text opens with a bullet as [reBullet] recognises it. *)
Definition isBullet (s : jsstring) : bool :=
  match bulletLen s with Some _ => true | None => false end.

(** If the text opens with a bullet, the bullet is the text ["• "]. *)
Definition bulletNormal (s : jsstring) : bool :=
  negb (isBullet s) || startsWith s bulletPrefix.

(** [/\n{3,}/g] to ["\n\n"] as a scanner: the first two line feeds of a
    run are kept; [k] counts the line feeds of the run already passed. *)
Fixpoint collapseBreaks (k : nat) (s : jsstring) : jsstring :=
  match s with
  | [] => []
  | c :: t =>
      if isChar LF c
      then (if 2 <=? k then collapseBreaks k t else LF :: collapseBreaks (S k) t)
      else c :: collapseBreaks 0 t
  end.

(** [/^\s+/gm] to the empty text as a scanner: whitespace is deleted for
    as long as nothing else has been seen since a line start. *)
Fixpoint stripIndent (bol : bool) (s : jsstring) : jsstring :=
  match s with
  | [] => []
  | c :: t =>
      if bol && isSpace c then stripIndent true t
      else c :: stripIndent (isLineTerminator c) t
  end.

Definition noStar (s : jsstring) : bool :=
  forallb (fun c => negb (isChar STAR c)) s.

(** What [formatSectionContent] establishes: no asterisk; no whitespace
    where [/^/m] matches; every bullet at such a position is ["• "];
    no whitespace at the end. *)
Definition tidy (s : jsstring) : bool :=
  noStar s
  && atLineStarts unindented true s
  && atLineStarts bulletNormal true s
  && negb (headSpace (rev s)).

(* ================================================================== *)
(** ** Heading markers *)





(* ================================================================== *)
(** ** The line loop as a grouping of lines *)

Definition joinLines (ls : list jsstring) : jsstring :=
  concat (map (fun l => l ++ [LF]) ls).

(** What [pushCurrent] adds for a title and an accumulated content. *)
Definition emit (t c : jsstring) : list BusinessPlanSection :=
  if nonEmpty t && nonEmpty (trim c)
  then [mkSection t (formatSectionContent (trim c))]
  else [].

Definition isNone {A : Type} (o : option A) : bool :=
  match o with None => true | Some _ => false end.

Section Groups.

Variable toLowerCase : jsstring -> jsstring.

(** The lines before the first header, and each header with the
    lines under it, in the order of the text. *)
Fixpoint groups (lines : list jsstring)
  : list jsstring * list (jsstring * list jsstring) :=
  match lines with
  | [] => ([], [])
  | l :: r =>
      let (pre, gs) := groups r in
      match matchedHeader toLowerCase l with
      | Some h => ([], (h, pre) :: gs)
      | None => (l :: pre, gs)
      end
  end.

Definition emitGroup (g : jsstring * list jsstring) : list BusinessPlanSection :=
  emit (fst g) (joinLines (snd g)).

Definition nonBlank (g : jsstring * list jsstring) : bool :=
  nonEmpty (trim (joinLines (snd g))).

(** The headers matched by the lines, in the order of the lines. *)
Definition matchedHeaders (lines : list jsstring) : list jsstring :=
  flat_map (fun l => match matchedHeader toLowerCase l with
                     | Some h => [h]
                     | None => []
                     end) lines.

End Groups.

(* ================================================================== *)
(** ** The header forms and the cleanliness of a content *)

Definition substring (sub s : jsstring) : Prop :=
  exists pre post, s = pre ++ sub ++ post.

(** The text opens with digits followed by a full stop. *)
Definition numbered (s : jsstring) : Prop :=
  exists ds rest, ds <> [] /\ forallb isDigit ds = true /\ s = ds ++ DOT :: rest.

Definition allPlain (s : jsstring) : bool := forallb isPlain s.

(** The cleanliness invariant but for the heading markers: no line
    (between line feeds) opens with whitespace; no ["**"] and no ["*"];
    every line that opens with a bullet (optional indentation, [-] or
    [•], whitespace) opens with ["• "]; no three line feeds in a row. *)
Definition cleanButHeadings (s : jsstring) : bool :=
  forallb unindented (split LF s)
  && negb (includes s [STAR; STAR])
  && noStar s
  && forallb bulletNormal (split LF s)
  && negb (includes s [LF; LF; LF]).





(* ================================================================== *)
(** ** Inputs of the examples *)

Definition textOf (ls : list string) : jsstring :=
  match ls with
  | [] => []
  | l :: r => fold_left (fun acc x => acc ++ LF :: lit x) r (lit l)
  end.

Definition executiveSummary : jsstring := lit "Executive Summary".
Definition marketAnalysis : jsstring := lit "Market Analysis".

(** ["3. Market Analysis — Q1"] *)
Definition numberedExample : jsstring :=
  lit "3. Market Analysis " ++ EMDASH :: lit " Q1".

Definition preambleOnly : jsstring := lit "Random preamble with no headers at all.".

(** ["**Executive Summary**"], a line feed, ["body"] *)
Definition boldHeader : jsstring := textOf ["**Executive Summary**"%string; "body"%string].

(** ["Market Analysis"], its body, ["Executive Summary"], its body. *)
Definition reversedOrder : jsstring :=
  textOf ["Market Analysis"%string; "Rural demand is high."%string;
         "Executive Summary"%string; "We build solar kits."%string].

(** ["preamble"], a line feed, ["Executive Summary"] *)
Definition preambleThenHeader : jsstring :=
  textOf ["preamble"%string; "Executive Summary"%string].


Definition preambleThenSection : jsstring :=
  textOf ["intro"%string; "Executive Summary"%string; "We build solar kits."%string].

(** The first and the third scenario of the specification. *)
Definition solarKits : jsstring :=
  textOf ["Executive Summary"%string; "We build solar kits."%string; ""%string;
          "Market Analysis"%string; "Rural demand is high."%string; ""%string].

Definition boldHeaderWithBullets : jsstring :=
  textOf ["**Executive Summary**"%string; "- Point one"%string;
          "- Point two"%string].





Definition acmePlan : GeneratedBusinessPlan :=
  Plan.make (lit "1700000000000") (lit "Acme Business Plan") (lit "Retail")
            1700000000000 [mkSection executiveSummary (lit "We sell.")]
            Plan.complete.

(** The body of a chat completion that carries [text]:
    [{"choices": [{"message": {"role": "assistant", "content": text}}]}]. *)
Definition chatCompletion (text : jsstring) : json :=
  JObject [(lit "choices",
            JArray [JObject [(lit "message",
                              JObject [(lit "role", JString (lit "assistant"));
                                       (lit "content", JString text)])]])].

Definition okResponse : Response :=
  mkResponse true 200 (Fulfilled (chatCompletion preambleThenSection)).

(** The clock reads the millisecond that minted the original's id. *)
Definition sameMillisecond : Host :=
  mkHost (lit "sk-or-v1") (Fulfilled okResponse) 1700000000000 1700000000000.

Definition laterMillisecond : Host :=
  mkHost (lit "sk-or-v1") (Fulfilled okResponse) 1700000004321 1700000004321.

Definition modifiedAcme : GeneratedBusinessPlan :=
  Plan.make (lit "1700000004321") (lit "Acme Business Plan (Modified)")
            (lit "Retail") 1700000004321
            [mkSection executiveSummary (lit "We build solar kits.")]
            Plan.complete.

(* ================================================================== *)
(** ** [generateBusinessPlan] *)

Module Input.

Record t : Type := make {
  businessName : jsstring;
  industry : jsstring;
  businessType : jsstring;
  location : jsstring;
  targetAudience : jsstring;
  uniqueValue : jsstring;
  revenueModel : jsstring;
  goals : jsstring
}.

End Input.

Definition BusinessPlanInput := Input.t.

Definition businessPlanSuffix : jsstring := lit " Business Plan".
Definition failedToGenerate : jsstring := lit "Failed to generate business plan.".

(** The guard that opens both methods:
    [!this.apiKey || this.apiKey === 'your_openrouter_api_key_here']. *)
Definition keyMissing (host : Host) : bool :=
  negb (nonEmpty (apiKey host)) || jsEqb (apiKey host) keyPlaceholder.

Definition generateBusinessPlan
           (toLowerCase : jsstring -> jsstring) (host : Host)
           (h : heap) (input : BusinessPlanInput) : failure + heap * ref :=
  if negb (nonEmpty (apiKey host)) || jsEqb (apiKey host) keyPlaceholder
  then inl KeyNotConfigured
  else
    tryCatch GenerationFailed
      (let* response := await (fetched host) in
       let* _ := checkStatus response in
       let* data := await (body response) in
       let* completion := completionOf data in
       let generatedContent := orElse completion failedToGenerate in
       let* sections := sectionsOf toLowerCase generatedContent in
       inr (alloc h
              (Plan.make (numberToString (dateNow host))
                         (Input.businessName input ++ businessPlanSuffix)
                         (Input.industry input)
                         (newDate host)
                         sections
                         Plan.complete))).

(* ================================================================== *)
(** ** When the exchange with the service fails

    The errors of the steps both methods take between the key check and
    the record they build, as a table. *)

(** What the [catch] clause throws for a rejection of the host. *)
Definition rethrown (generic : failure) (r : reason) : failure :=
  match r with
  | AnError message => HostError message
  | NotAnError => generic
  end.

(** [data.choices[0]] can be read: [data] is an object with a member
    [choices] that is not [null]. *)
Definition hasChoices (data : json) : bool :=
  match data with
  | JObject members =>
      match lookup (lit "choices") members with
      | None | Some JNull => false
      | Some _ => true
      end
  | _ => false
  end.

(** The value of [data.choices[0]?.message?.content] where it can be
    read. *)
Definition completionValue (data : json) : value :=
  match completionOf data with
  | inr x => x
  | inl _ => None
  end.

Definition isText (x : value) : bool :=
  match x with
  | Some (JString _) => true
  | _ => false
  end.

(** A status other than 401, 402 and 429. *)
Definition otherStatus (response : Response) : bool :=
  negb (httpStatus response =? 401)%N
  && negb (httpStatus response =? 402)%N
  && negb (httpStatus response =? 429)%N.

(** [errorData.error?.message] for an [errorData] that is not [null]. *)
Definition errorMessage (response : Response) : value :=
  getOptional (lit "message")
              (getOptional (lit "error") (Some (errorDataOf response))).

Inductive exchangeFails (generic : failure) (host : Host) : failure -> Prop :=
| fetch_rejected r :
    fetched host = Rejected r ->
    exchangeFails generic host (rethrown generic r)
| status_401 response :
    fetched host = Fulfilled response -> ok response = false ->
    httpStatus response = 401%N ->
    exchangeFails generic host InvalidKey
| status_402 response :
    fetched host = Fulfilled response -> ok response = false ->
    httpStatus response = 402%N ->
    exchangeFails generic host InsufficientCredits
| status_429 response :
    fetched host = Fulfilled response -> ok response = false ->
    httpStatus response = 429%N ->
    exchangeFails generic host RateLimited
| status_other_null response :
    fetched host = Fulfilled response -> ok response = false ->
    otherStatus response = true ->
    errorDataOf response = JNull ->
    exchangeFails generic host TypeError
| status_other_message response m :
    fetched host = Fulfilled response -> ok response = false ->
    otherStatus response = true ->
    errorDataOf response <> JNull ->
    errorMessage response = Some m -> truthy (Some m) = true ->
    stringifiable m = true ->
    exchangeFails generic host (RequestFailed (Some m))
| status_other_unprintable response m :
    fetched host = Fulfilled response -> ok response = false ->
    otherStatus response = true ->
    errorDataOf response <> JNull ->
    errorMessage response = Some m -> truthy (Some m) = true ->
    stringifiable m = false ->
    exchangeFails generic host TypeError
| status_other_plain response :
    fetched host = Fulfilled response -> ok response = false ->
    otherStatus response = true ->
    errorDataOf response <> JNull ->
    truthy (errorMessage response) = false ->
    exchangeFails generic host (RequestFailed None)
| body_rejected response r :
    fetched host = Fulfilled response -> ok response = true ->
    body response = Rejected r ->
    exchangeFails generic host (rethrown generic r)
| no_choices response data :
    fetched host = Fulfilled response -> ok response = true ->
    body response = Fulfilled data ->
    hasChoices data = false ->
    exchangeFails generic host TypeError
| completion_not_text response data :
    fetched host = Fulfilled response -> ok response = true ->
    body response = Fulfilled data ->
    hasChoices data = true ->
    truthy (completionValue data) = true ->
    isText (completionValue data) = false ->
    exchangeFails generic host TypeError.

(* ================================================================== *)
(** ** Export and the text given back to the model *)

Definition UNDERSCORE : char := 95%N.
Definition EQUALS : char := 61%N.

(** [/\s+/g] *)
Definition reSpaces : regex := [Rep isSpace 1 None].

(** Every run of whitespace becomes one underscore, as a scanner:
    [inRun] tells that the unit before was whitespace. *)
Fixpoint underscored (inRun : bool) (s : jsstring) : jsstring :=
  match s with
  | [] => []
  | c :: t =>
      if isSpace c
      then (if inRun then underscored true t
            else UNDERSCORE :: underscored true t)
      else c :: underscored false t
  end.

Definition formatBusinessPlanForModification
           (businessPlan : GeneratedBusinessPlan) : jsstring :=
  fold_left
    (fun acc section =>
       (acc ++ title section ++ [LF]) ++ content section ++ [LF; LF])
    (Plan.sections businessPlan)
    ((Plan.title businessPlan ++ [LF])
       ++ lit "Industry: " ++ Plan.industry businessPlan ++ [LF; LF]).

Section Downloads.

(** [Date.prototype.toLocaleDateString] depends on the locale of the host. *)
Variable toLocaleDateString : Z -> jsstring.

Definition formatBusinessPlanForExport
           (businessPlan : GeneratedBusinessPlan) : jsstring :=
  fold_left
    (fun acc section =>
       ((acc ++ title section ++ [LF])
          ++ repeat DASH (length (title section)) ++ [LF; LF])
         ++ content section ++ [LF; LF])
    (Plan.sections businessPlan)
    ((((Plan.title businessPlan ++ [LF])
         ++ lit "Industry: " ++ Plan.industry businessPlan ++ [LF])
        ++ lit "Created: "
        ++ toLocaleDateString (Plan.createdAt businessPlan) ++ [LF; LF])
       ++ repeat EQUALS 50 ++ [LF; LF]).

(** What the anchor element downloads: the [Blob] and its name. *)
Record Download : Type := mkDownload {
  fileName : jsstring;
  mimeType : jsstring;
  fileBody : jsstring
}.

Definition exportToPDF (businessPlan : GeneratedBusinessPlan) : Download :=
  mkDownload
    (replaceAll reSpaces [UNDERSCORE] (Plan.title businessPlan) ++ lit ".txt")
    (lit "text/plain")
    (formatBusinessPlanForExport businessPlan).

Definition exportToWord (businessPlan : GeneratedBusinessPlan) : Download :=
  mkDownload
    (replaceAll reSpaces [UNDERSCORE] (Plan.title businessPlan) ++ lit ".doc")
    (lit "application/msword")
    (formatBusinessPlanForExport businessPlan).

End Downloads.

(* ================================================================== *)
(** ** [validateForm], the gate before [generateBusinessPlan] *)

(** [keyof BusinessPlanInput] *)
Inductive fieldKey : Type :=
| kBusinessName | kIndustry | kBusinessType | kLocation
| kTargetAudience | kUniqueValue | kRevenueModel | kGoals.

Definition keyName (k : fieldKey) : jsstring :=
  match k with
  | kBusinessName => lit "businessName"
  | kIndustry => lit "industry"
  | kBusinessType => lit "businessType"
  | kLocation => lit "location"
  | kTargetAudience => lit "targetAudience"
  | kUniqueValue => lit "uniqueValue"
  | kRevenueModel => lit "revenueModel"
  | kGoals => lit "goals"
  end.

(** [formData[field]] *)
Definition field (formData : BusinessPlanInput) (k : fieldKey) : jsstring :=
  match k with
  | kBusinessName => Input.businessName formData
  | kIndustry => Input.industry formData
  | kBusinessType => Input.businessType formData
  | kLocation => Input.location formData
  | kTargetAudience => Input.targetAudience formData
  | kUniqueValue => Input.uniqueValue formData
  | kRevenueModel => Input.revenueModel formData
  | kGoals => Input.goals formData
  end.

Definition requiredFields : list fieldKey :=
  [kBusinessName; kIndustry; kBusinessType; kLocation;
   kTargetAudience; kUniqueValue].

(** The class [[A-Z]]. *)
Definition isCapital (c : char) : bool := (65 <=? c)%N && (c <=? 90)%N.

(** [/([A-Z])/g] *)
Definition reCapital : regex := [one isCapital].

(** [String.prototype.replace] with a [g] pattern whose replacement
    text refers to the match: [sub] maps the matched text to what
    replaces it. *)
Fixpoint replaceEach (re : regex) (sub : jsstring -> jsstring)
         (skip : nat) (prev : option char) (s : jsstring) : jsstring :=
  match s with
  | [] => match skip, exec re prev [] with
          | 0, Some _ => sub []
          | _, _ => []
          end
  | c :: t =>
      match skip with
      | S k => replaceEach re sub k (Some c) t
      | 0 =>
          match exec re prev s with
          | Some (S k) => sub (firstn (S k) s) ++ replaceEach re sub k (Some c) t
          | Some 0 => sub [] ++ c :: replaceEach re sub 0 (Some c) t
          | None => c :: replaceEach re sub 0 (Some c) t
          end
      end
  end.

(** [field.replace(/([A-Z])/g, ' $1')]: the group is the whole match. *)
Definition spaceCapitals (name : jsstring) : jsstring :=
  replaceEach reCapital (fun m => SPACE :: m) 0 None name.

Section Validate.

Variable toLowerCase : jsstring -> jsstring.

(** The loop of [validateForm] over the fields still to check: the
    error it sets when it returns [false], nothing when it returns
    [true]. *)
Fixpoint validateFields (formData : BusinessPlanInput) (fields : list fieldKey)
  : option jsstring :=
  match fields with
  | [] => None
  | k :: rest =>
      if negb (nonEmpty (trim (field formData k)))
      then Some (lit "Please fill in the "
                   ++ toLowerCase (spaceCapitals (keyName k))
                   ++ lit " field")
      else validateFields formData rest
  end.

Definition validateForm (formData : BusinessPlanInput) : option jsstring :=
  validateFields formData requiredFields.

End Validate.

(** The code units the passes insert. *)
Definition inserted : jsstring := [BULLET; SPACE; LF].

(** The text has a code unit that is not whitespace. *)
Definition solid (s : jsstring) : bool :=
  existsb (fun c => negb (isSpace c)) s.

(** No code unit of the text is whitespace. *)
Definition spaceless (s : jsstring) : bool :=
  forallb (fun c => negb (isSpace c)) s.

(** What both methods establish of the plan they return. *)
Definition wellFormedPlan (plan : GeneratedBusinessPlan) : Prop :=
  Plan.status plan = Plan.complete
  /\ 1 <= length (Plan.sections plan)
  /\ forallb (fun sec => cleanButHeadings (content sec)) (Plan.sections plan)
     = true.

Definition acmeInput : BusinessPlanInput :=
  Input.make (lit "Acme") (lit "Retail") (lit "LLC") (lit "Nairobi")
             (lit "Shoppers") (lit "Low prices") (lit "Sales") (lit "Grow").

(** The plan [generateBusinessPlan] mints for [acmeInput] when the clock
    reads 1700000000000. *)
Definition acmeEarlier : GeneratedBusinessPlan :=
  Plan.make (lit "1700000000000") (lit "Acme Business Plan")
            (lit "Retail") 1700000000000
            [mkSection executiveSummary (lit "We build solar kits.")]
            Plan.complete.

Definition acmeGenerated : GeneratedBusinessPlan :=
  Plan.make (lit "1700000004321") (lit "Acme Business Plan")
            (lit "Retail") 1700000004321
            [mkSection executiveSummary (lit "We build solar kits.")]
            Plan.complete.

(** A response that is [ok] and whose body has an empty list of choices:
    [{"choices": []}]. *)
Definition silentHost : Host :=
  mkHost (lit "sk-or-v1")
         (Fulfilled (mkResponse true 200
                                (Fulfilled (JObject [(lit "choices", JArray [])]))))
         1700000004321 1700000004321.

(** A placeholder key with a response that would be fine. *)
Definition unconfiguredHost : Host :=
  mkHost keyPlaceholder (Fulfilled okResponse) 1700000004321 1700000004321.

Definition rateLimitedHost : Host :=
  mkHost (lit "sk-or-v1")
         (Fulfilled (mkResponse false 429 (Rejected (AnError (lit "Unexpected end of JSON input")))))
         1700000004321 1700000004321.

(** The request does not reach the service. *)
Definition offlineHost : Host :=
  mkHost (lit "sk-or-v1") (Rejected (AnError (lit "Failed to fetch")))
         1700000004321 1700000004321.

(** A response that is [ok] and whose body is [{}]. *)
Definition emptyBodyHost : Host :=
  mkHost (lit "sk-or-v1")
         (Fulfilled (mkResponse true 200 (Fulfilled (JObject []))))
         1700000004321 1700000004321.

(** The field names as the error message words them. *)
Definition fieldWords (k : fieldKey) : jsstring :=
  match k with
  | kBusinessName => lit "business name"
  | kIndustry => lit "industry"
  | kBusinessType => lit "business type"
  | kLocation => lit "location"
  | kTargetAudience => lit "target audience"
  | kUniqueValue => lit "unique value"
  | kRevenueModel => lit "revenue model"
  | kGoals => lit "goals"
  end.

(** The first required field, in the order of the form, that is empty or
    whitespace alone. *)
Definition firstBlank (formData : BusinessPlanInput) : option fieldKey :=
  find (fun k => negb (solid (field formData k))) requiredFields.

(** A form whose location is whitespace alone and whose optional fields
    are empty. *)
Definition noLocation : BusinessPlanInput :=
  Input.make (lit "Acme") (lit "Retail") (lit "LLC") [SPACE; 9%N]
             (lit "Shoppers") (lit "Low prices") [] [].

(** The block of a section in the text given back to the model. *)
Definition modificationBlock (section : BusinessPlanSection) : jsstring :=
  title section ++ [LF] ++ content section ++ [LF; LF].

(** The block of a section in the exported text. *)
Definition exportBlock (section : BusinessPlanSection) : jsstring :=
  title section ++ [LF] ++ repeat DASH (length (title section)) ++ [LF; LF]
        ++ content section ++ [LF; LF].

(* ################################################################## *)
(** * Part II: properties *)

Arguments isChar : simpl never.
Arguments isSpace : simpl never.
Arguments isLineTerminator : simpl never.
Arguments isBulletMark : simpl never.
Arguments isDigit : simpl never.

(* ================================================================== *)
(** ** Facts about the matcher *)

Lemma countWhile_le (p : char -> bool) (s : jsstring) :
  forall cap, countWhile p cap s <= length s.
Proof.
  induction s as [|c t IH]; intros [[|k]|]; simpl; try lia;
    destruct (p c); simpl; try lia.
  - specialize (IH (Some k)); simpl in IH; lia.
  - specialize (IH None); simpl in IH; lia.
Qed.

Lemma countWhile_zero (p : char -> bool) (s : jsstring) :
  countWhile p (Some 0) s = 0.
Proof. now destruct s. Qed.

Lemma countWhile_skipn (p : char -> bool) (s : jsstring) :
  forall k, k < countWhile p None s ->
            exists c t, skipn k s = c :: t /\ p c = true.
Proof.
  induction s as [|c t IH]; simpl; intros k Hk; [lia|].
  destruct (p c) eqn:Hp; [|lia].
  destruct k as [|k]; simpl.
  - now exists c, t.
  - apply IH. simpl in Hk. lia.
Qed.

Lemma countWhile_stop (p : char -> bool) (s : jsstring) :
  match skipn (countWhile p None s) s with
  | [] => True
  | c :: _ => p c = false
  end.
Proof.
  induction s as [|c t IH]; simpl; [exact I|].
  destruct (p c) eqn:Hp; simpl; [exact IH | exact Hp].
Qed.

Lemma backtrack_some (f : nat -> option nat) (lo : nat) :
  forall d r, backtrack f lo d = Some r ->
              exists k, lo <= k <= lo + d /\ f k = Some r.
Proof.
  induction d as [|d IH]; simpl; intros r H.
  - destruct (f (lo + 0)) eqn:E; [|discriminate].
    exists (lo + 0). split; [lia | congruence].
  - destruct (f (lo + S d)) eqn:E.
    + exists (lo + S d). split; [lia | congruence].
    + destruct (IH _ H) as (k & Hk & Hf). exists k. split; [lia | exact Hf].
Qed.

Lemma backtrack_top (f : nat -> option nat) (lo : nat) :
  forall d, (forall k, lo <= k < lo + d -> f k = None) ->
            backtrack f lo d = f (lo + d).
Proof.
  induction d as [|d IH]; simpl; intros H.
  - now destruct (f (lo + 0)).
  - destruct (f (lo + S d)) eqn:E; [reflexivity|].
    rewrite IH by (intros; apply H; lia).
    apply H. lia.
Qed.

(** A match never runs past the end of the string. *)
Lemma exec_le (re : regex) :
  forall prev s n, exec re prev s = Some n -> n <= length s.
Proof.
  induction re as [|[m|cls lo hi] r IH]; simpl; intros prev s n H.
  - injection H as <-. lia.
  - destruct (atLineStart m prev); [eauto | discriminate].
  - pose proof (countWhile_le cls s hi) as Hc.
    destruct (countWhile cls hi s <? lo) eqn:E; [discriminate|].
    apply Nat.ltb_ge in E.
    apply backtrack_some in H. destruct H as (k & Hk & Hf).
    destruct (exec r (prevAt prev s k) (skipn k s)) as [j|] eqn:Ej;
      [|discriminate].
    simpl in Hf. injection Hf as <-.
    apply IH in Ej. rewrite length_skipn in Ej. lia.
Qed.

(** A single-character class followed by the rest of the pattern. *)
Lemma exec_one (cls : char -> bool) (r : regex) (prev : option char) (s : jsstring) :
  exec (one cls :: r) prev s =
  match s with
  | c :: t => if cls c then option_map S (exec r (Some c) t) else None
  | [] => None
  end.
Proof.
  destruct s as [|c t]; simpl; [reflexivity|].
  destruct (cls c); simpl; [|reflexivity].
  rewrite countWhile_zero. simpl.
  now destruct (exec r (Some c) t).
Qed.

(** A quantified class that ends the pattern takes its whole greedy run. *)
Lemma exec_last (cls : char -> bool) (lo : nat) (hi : option nat)
      (prev : option char) (s : jsstring) :
  exec [Rep cls lo hi] prev s =
  if countWhile cls hi s <? lo then None else Some (countWhile cls hi s).
Proof.
  simpl. destruct (countWhile cls hi s <? lo) eqn:E; [reflexivity|].
  apply Nat.ltb_ge in E.
  destruct (countWhile cls hi s - lo) eqn:D; simpl; f_equal; lia.
Qed.

(** A pattern that opens with at least one character of a class. *)
Lemma exec_head (cls : char -> bool) (lo : nat) (hi : option nat) (r : regex)
      (prev : option char) (s : jsstring) (n : nat) :
  exec (Rep cls (S lo) hi :: r) prev s = Some n ->
  exists c t, s = c :: t /\ cls c = true.
Proof.
  simpl. destruct (countWhile cls hi s <? S lo) eqn:E; [discriminate|].
  intros _. apply Nat.ltb_ge in E.
  destruct s as [|c t]; [destruct hi as [[|]|]; simpl in E; lia|].
  exists c, t. split; [reflexivity|].
  destruct hi as [[|k]|]; simpl in E; try lia; destruct (cls c); auto; lia.
Qed.

(* ------------------------------------------------------------------ *)
(** *** Replacement *)

(** Passing over the rest of a match. *)
Lemma replaceFrom_skip (re : regex) (repl : jsstring) :
  forall s skip prev, skip <= length s ->
    replaceFrom re repl skip prev s =
    replaceFrom re repl 0 (prevAt prev s skip) (skipn skip s).
Proof.
  induction s as [|c t IH]; intros [|k] prev H; simpl in *; try lia;
    try reflexivity.
  rewrite IH by lia.
  destruct k as [|k]; simpl; [reflexivity|].
  destruct (nth_error t k) eqn:E; [reflexivity|].
  apply nth_error_None in E. lia.
Qed.

(** The scan at a position where the pattern matches a non-empty text. *)
Lemma replaceFrom_match (re : regex) (repl : jsstring)
      (prev : option char) (s : jsstring) (n : nat) :
  exec re prev s = Some (S n) ->
  replaceFrom re repl 0 prev s =
  repl ++ replaceFrom re repl 0 (prevAt prev s (S n)) (skipn (S n) s).
Proof.
  intros H. pose proof (exec_le _ _ _ _ H) as Hle.
  destruct s as [|c t]; simpl in Hle; [lia|].
  cbn [replaceFrom]. rewrite H. f_equal.
  rewrite replaceFrom_skip by lia.
  destruct n as [|n]; simpl; [reflexivity|].
  destruct (nth_error t n) eqn:E; [reflexivity|].
  apply nth_error_None in E. lia.
Qed.

Lemma replaceFrom_nomatch (re : regex) (repl : jsstring)
      (prev : option char) (c : char) (t : jsstring) :
  exec re prev (c :: t) = None ->
  replaceFrom re repl 0 prev (c :: t) = c :: replaceFrom re repl 0 (Some c) t.
Proof. intros H. cbn [replaceFrom]. now rewrite H. Qed.

(** Every code unit of the result comes from the input or from the
    replacement text. *)
Lemma replaceFrom_In (re : regex) (repl : jsstring) (x : char) :
  forall s skip prev,
    In x (replaceFrom re repl skip prev s) -> In x repl \/ In x s.
Proof.
  induction s as [|c t IH]; intros skip prev H; cbn [replaceFrom] in H.
  - destruct skip; [destruct (exec re prev [])|]; simpl in H; tauto.
  - destruct skip as [|k].
    + destruct (exec re prev (c :: t)) as [[|k]|].
      * apply in_app_or in H. destruct H as [H|[H|H]]; simpl; auto.
        apply IH in H. tauto.
      * apply in_app_or in H. destruct H as [H|H]; auto.
        apply IH in H. simpl. tauto.
      * destruct H as [H|H]; simpl; auto. apply IH in H. tauto.
    + apply IH in H. simpl. tauto.
Qed.

Lemma fixedBy_replaceFrom (re : regex) (repl : jsstring) :
  forall s prev skip,
    fixedBy re repl prev s ->
    replaceFrom re repl skip prev s = skipn skip s.
Proof.
  induction s as [|c t IH]; intros prev skip [H1 H2].
  - cbn [replaceFrom]. destruct skip; [|reflexivity].
    destruct (exec re prev []) as [n|]; [|reflexivity].
    destruct H1 as [_ H1]. now rewrite firstn_nil in H1.
  - cbn [replaceFrom]. destruct skip as [|k]; [|now rewrite IH].
    destruct (exec re prev (c :: t)) as [[|k]|].
    + now destruct H1.
    + destruct H1 as [_ H1]. rewrite IH by assumption.
      rewrite <- H1. simpl. now rewrite firstn_skipn.
    + now rewrite IH.
Qed.

Lemma fixedBy_replaceAll (re : regex) (repl s : jsstring) :
  fixedBy re repl None s -> replaceAll re repl s = s.
Proof. intros H. unfold replaceAll. now rewrite fixedBy_replaceFrom. Qed.

(* ================================================================== *)
(** ** What each pattern matches *)

Lemma mark_not_space (c : char) : isSpace c = true -> isBulletMark c = false.
Proof.
  unfold isBulletMark, DASH, BULLET.
  destruct (c =? 45)%N eqn:E1; [apply N.eqb_eq in E1; subst; discriminate|].
  destruct (c =? 8226)%N eqn:E2; [apply N.eqb_eq in E2; subst; discriminate|].
  reflexivity.
Qed.

Lemma lineTerminator_space (c : char) :
  isLineTerminator c = true -> isSpace c = true.
Proof. unfold isSpace. now intros ->. Qed.

Lemma exec_Bol (m : bool) (r : regex) (prev : option char) (s : jsstring) :
  exec (Bol m :: r) prev s = if atLineStart m prev then exec r prev s else None.
Proof. reflexivity. Qed.

Lemma exec_Rep (cls : char -> bool) (lo : nat) (hi : option nat) (r : regex)
      (prev : option char) (s : jsstring) :
  exec (Rep cls lo hi :: r) prev s =
  if countWhile cls hi s <? lo then None
  else backtrack
         (fun k => option_map (Nat.add k) (exec r (prevAt prev s k) (skipn k s)))
         lo (countWhile cls hi s - lo).
Proof. reflexivity. Qed.

Lemma exec_reBullet (prev : option char) (s : jsstring) :
  exec reBullet prev s = if atLineStart true prev then bulletLen s else None.
Proof.
  unfold reBullet. rewrite exec_Bol.
  destruct (atLineStart true prev); [|reflexivity].
  rewrite exec_Rep. cbn [Nat.ltb Nat.leb]. rewrite Nat.sub_0_r.
  rewrite backtrack_top.
  - cbn [Nat.add]. unfold bulletLen.
    set (n := countWhile isSpace None s).
    rewrite exec_one.
    destruct (skipn n s) as [|c [|d t]]; [reflexivity| |].
    + rewrite exec_one. now destruct (isBulletMark c).
    + rewrite exec_one. destruct (isBulletMark c), (isSpace d); simpl;
        try reflexivity; f_equal; lia.
  - intros k Hk. destruct (countWhile_skipn isSpace s k) as (c & t & E & Hc);
      [lia|].
    rewrite exec_one, E, (mark_not_space _ Hc). reflexivity.
Qed.

Lemma exec_reIndent (prev : option char) (s : jsstring) :
  exec reIndent prev s =
  if atLineStart true prev
  then (if countWhile isSpace None s <? 1 then None
        else Some (countWhile isSpace None s))
  else None.
Proof.
  unfold reIndent. now rewrite exec_Bol, exec_last.
Qed.

Lemma exec_reBreaks (prev : option char) (s : jsstring) :
  exec reBreaks prev s =
  if countWhile (isChar LF) None s <? 3 then None
  else Some (countWhile (isChar LF) None s).
Proof. apply exec_last. Qed.

Lemma exec_reStar (prev : option char) (c : char) (t : jsstring) :
  exec reStar prev (c :: t) = if isChar STAR c then Some 1 else None.
Proof. unfold reStar. now rewrite exec_one. Qed.

(* ------------------------------------------------------------------ *)
(** *** Induction on the length of a string *)

Lemma length_ind (P : jsstring -> Prop) :
  (forall s, (forall t, length t < length s -> P t) -> P s) ->
  forall s, P s.
Proof.
  intros H s. remember (length s) as n eqn:E.
  revert s E. induction n as [n IH] using lt_wf_ind.
  intros s ->. apply H. intros t Ht. exact (IH _ Ht _ eq_refl).
Qed.

(* ================================================================== *)
(** ** Invariants of cleaned text *)

Lemma isBullet_space (c : char) (t : jsstring) :
  isSpace c = true -> isBullet (c :: t) = isBullet t.
Proof.
  intros H. unfold isBullet, bulletLen. simpl. rewrite H. simpl.
  destruct (skipn (countWhile isSpace None t) t) as [|x [|y r]]; try reflexivity.
  now destruct (isBulletMark x && isSpace y).
Qed.

Lemma isBullet_nonspace (c : char) (t : jsstring) :
  isSpace c = false -> isBullet (c :: t) = isBulletMark c && headSpace t.
Proof.
  intros H. unfold isBullet, bulletLen. simpl. rewrite H. simpl.
  destruct t as [|d r]; simpl; [now rewrite andb_false_r|].
  now destruct (isBulletMark c && isSpace d).
Qed.

Lemma bulletNormal_prefix (t : jsstring) :
  bulletNormal (BULLET :: SPACE :: t) = true.
Proof.
  unfold bulletNormal.
  change (startsWith (BULLET :: SPACE :: t) bulletPrefix) with true.
  apply orb_true_r.
Qed.

Lemma isBullet_exec (prev : option char) (s : jsstring) :
  isBullet s = false -> exec reBullet prev s = None.
Proof.
  rewrite exec_reBullet. unfold isBullet.
  destruct (bulletLen s); [discriminate|]. now destruct (atLineStart true prev).
Qed.

Lemma atLineStarts_weaken (q : jsstring -> bool) (s : jsstring) (b : bool) :
  atLineStarts q b s = true -> atLineStarts q false s = true.
Proof.
  destruct s; simpl; intros H; apply andb_prop in H; tauto.
Qed.

Lemma atLineStarts_here (q : jsstring -> bool) (s : jsstring) (b : bool) :
  q s = true -> atLineStarts q b s = true -> atLineStarts q true s = true.
Proof.
  intros Hq H. destruct s; simpl in *; rewrite Hq; simpl;
    [reflexivity|]. apply andb_prop in H. tauto.
Qed.

Lemma replaceFrom_nil (re : regex) (repl : jsstring) (prev : option char) :
  exec re prev [] = None -> replaceFrom re repl 0 prev [] = [].
Proof. simpl. now intros ->. Qed.

Lemma not_space_not_lineTerminator (c : char) :
  isSpace c = false -> isLineTerminator c = false.
Proof.
  intros H. destruct (isLineTerminator c) eqn:E; [|reflexivity].
  apply lineTerminator_space in E. congruence.
Qed.

(* ------------------------------------------------------------------ *)
(** *** The bullet pass *)

Lemma bullet_headSpace (c : char) (t : jsstring) :
  isSpace c = false ->
  headSpace (replaceFrom reBullet bulletPrefix 0 (Some c) t) = headSpace t.
Proof.
  intros H.
  assert (E : exec reBullet (Some c) t = None).
  { rewrite exec_reBullet. simpl. now rewrite not_space_not_lineTerminator. }
  destruct t as [|d r]; [now rewrite replaceFrom_nil|].
  now rewrite replaceFrom_nomatch.
Qed.

(** The bullet pass leaves no bullet where there was none. *)
Lemma bullet_not_created :
  forall t p, isBullet t = false ->
              isBullet (replaceFrom reBullet bulletPrefix 0 p t) = false.
Proof.
  induction t as [|d t IH]; intros p H.
  - rewrite replaceFrom_nil; [reflexivity | now apply isBullet_exec].
  - rewrite replaceFrom_nomatch by now apply isBullet_exec.
    destruct (isSpace d) eqn:Hd.
    + rewrite isBullet_space in * by assumption. now apply IH.
    + rewrite isBullet_nonspace in * by assumption.
      now rewrite bullet_headSpace.
Qed.

(** After the bullet pass every bullet at a line start is ["• "]. *)
Lemma bullet_normalises :
  forall s p,
    atLineStarts bulletNormal (atLineStart true p)
                 (replaceFrom reBullet bulletPrefix 0 p s) = true.
Proof.
  induction s as [s IH] using length_ind. intros p.
  destruct (exec reBullet p s) as [n|] eqn:E.
  - assert (exists k, n = S k) as [k ->].
    { rewrite exec_reBullet in E. destruct (atLineStart true p); [|discriminate].
      unfold bulletLen in E.
      destruct (skipn _ s) as [|x [|y r]]; try discriminate.
      destruct (isBulletMark x && isSpace y); [|discriminate].
      injection E as <-. eexists. rewrite Nat.add_succ_r. reflexivity. }
    rewrite (replaceFrom_match _ bulletPrefix _ _ _ E).
    pose proof (exec_le _ _ _ _ E) as Hle.
    assert (Hlen : length (skipn (S k) s) < length s)
      by (rewrite length_skipn; lia).
    specialize (IH _ Hlen (prevAt p s (S k))).
    apply atLineStarts_weaken in IH.
    cbn [bulletPrefix app atLineStarts].
    change (isLineTerminator BULLET) with false.
    change (isLineTerminator SPACE) with false.
    rewrite IH, bulletNormal_prefix. now destruct (atLineStart true p).
  - destruct s as [|c t].
    + rewrite replaceFrom_nil by assumption. now destruct (atLineStart true p).
    + pose proof E as E'. rewrite exec_reBullet in E'.
      rewrite replaceFrom_nomatch by assumption.
      cbn [atLineStarts].
      assert (Ht : length t < length (c :: t)) by (simpl; lia).
      specialize (IH _ Ht (Some c)). simpl in IH. rewrite IH, andb_true_r.
      destruct (atLineStart true p); [|reflexivity].
      assert (Hb : isBullet (c :: t) = false) by (unfold isBullet; now rewrite E').
      apply bullet_not_created with (p := p) in Hb.
      rewrite replaceFrom_nomatch in Hb by assumption.
      unfold bulletNormal. now rewrite Hb.
Qed.

Lemma startsWith_bullet (s : jsstring) :
  startsWith s bulletPrefix = true -> exists r, s = BULLET :: SPACE :: r.
Proof.
  destruct s as [|c [|d r]]; simpl; try discriminate.
  - now rewrite andb_false_r.
  - intros H. apply andb_prop in H. destruct H as [H1 H2].
    apply andb_prop in H2. destruct H2 as [H2 _].
    apply N.eqb_eq in H1, H2. subst. now exists r.
Qed.

Lemma space_not_bulletPrefix (c : char) (t : jsstring) :
  isSpace c = true -> startsWith (c :: t) bulletPrefix = false.
Proof.
  intros H. destruct (startsWith (c :: t) bulletPrefix) eqn:E; [|reflexivity].
  apply startsWith_bullet in E. destruct E as [r E]. injection E as -> _.
  discriminate.
Qed.

(** At a line start that opens with whitespace, normal bullets mean no
    bullet behind the whitespace. *)
Lemma bulletNormal_space (c : char) (t : jsstring) :
  isSpace c = true -> bulletNormal (c :: t) = true -> isBullet t = false.
Proof.
  intros Hc H. unfold bulletNormal in H.
  rewrite space_not_bulletPrefix, orb_false_r, isBullet_space in H by assumption.
  now destruct (isBullet t).
Qed.

Lemma bulletNormal_of_not_bullet (s : jsstring) :
  isBullet s = false -> bulletNormal s = true.
Proof. unfold bulletNormal. now intros ->. Qed.

(* ------------------------------------------------------------------ *)
(** *** The line-break pass *)

Lemma isChar_eq (a c : char) : isChar a c = true -> c = a.
Proof. unfold isChar. intros H. apply N.eqb_eq in H. congruence. Qed.

Lemma collapse_small :
  forall s k, k + countWhile (isChar LF) None s <= 2 ->
              collapseBreaks k s = collapseBreaks 0 s.
Proof.
  induction s as [|c t IH]; intros k H; [reflexivity|].
  cbn [collapseBreaks countWhile option_map] in *.
  destruct (isChar LF c); [|reflexivity].
  destruct (2 <=? k) eqn:E; [apply Nat.leb_le in E; lia|].
  change (2 <=? 0) with false. cbv iota. f_equal.
  rewrite (IH (S k)), (IH 1) by lia. reflexivity.
Qed.

Lemma collapse_run :
  forall s k, 2 <= k ->
    collapseBreaks k s =
    collapseBreaks 0 (skipn (countWhile (isChar LF) None s) s).
Proof.
  induction s as [|c t IH]; intros k H; [reflexivity|].
  cbn [collapseBreaks countWhile option_map].
  destruct (isChar LF c) eqn:E; cbn [skipn collapseBreaks].
  - apply Nat.leb_le in H. rewrite H. apply Nat.leb_le in H. now apply IH.
  - now rewrite E.
Qed.

Lemma collapse_match (s : jsstring) :
  3 <= countWhile (isChar LF) None s ->
  collapseBreaks 0 s =
  twoBreaks ++ collapseBreaks 0 (skipn (countWhile (isChar LF) None s) s).
Proof.
  destruct s as [|c1 [|c2 t]]; cbn [collapseBreaks countWhile option_map].
  - lia.
  - destruct (isChar LF c1); lia.
  - destruct (isChar LF c1); [|lia].
    destruct (isChar LF c2); [|lia].
    intros H. change (2 <=? 0) with false. change (2 <=? 1) with false.
    cbv iota. cbn [skipn twoBreaks app]. do 2 f_equal. apply collapse_run. lia.
Qed.

Lemma breaks_collapse :
  forall s prev, replaceFrom reBreaks twoBreaks 0 prev s = collapseBreaks 0 s.
Proof.
  induction s as [s IH] using length_ind. intros prev.
  pose proof (exec_reBreaks prev s) as E.
  destruct (countWhile (isChar LF) None s <? 3) eqn:R.
  - apply Nat.ltb_lt in R. destruct s as [|c t].
    + now rewrite replaceFrom_nil.
    + rewrite replaceFrom_nomatch by assumption.
      rewrite IH by (simpl; lia).
      cbn [collapseBreaks countWhile option_map] in *.
      destruct (isChar LF c) eqn:Hc; [|reflexivity].
      apply isChar_eq in Hc. subst c. change (2 <=? 0) with false. cbv iota.
      f_equal. symmetry. apply collapse_small. lia.
  - apply Nat.ltb_ge in R.
    destruct (countWhile (isChar LF) None s) as [|n] eqn:Hn; [lia|].
    pose proof (exec_le _ _ _ _ E) as Hle.
    rewrite (replaceFrom_match _ twoBreaks _ _ _ E).
    rewrite IH by (rewrite length_skipn; lia).
    rewrite (collapse_match s) by lia. rewrite Hn. reflexivity.
Qed.

Lemma collapse_headSpace (t : jsstring) :
  headSpace (collapseBreaks 0 t) = headSpace t.
Proof.
  destruct t as [|c r]; [reflexivity|]. cbn [collapseBreaks].
  destruct (isChar LF c) eqn:E; [|reflexivity].
  apply isChar_eq in E. now subst.
Qed.

Lemma collapse_not_created :
  forall t k, isBullet t = false -> isBullet (collapseBreaks k t) = false.
Proof.
  induction t as [|c t IH]; intros k H; [assumption|].
  cbn [collapseBreaks]. destruct (isChar LF c) eqn:E.
  - apply isChar_eq in E. subst c.
    rewrite isBullet_space in H by reflexivity.
    destruct (2 <=? k); [now apply IH|].
    rewrite isBullet_space by reflexivity. now apply IH.
  - destruct (isSpace c) eqn:Hc.
    + rewrite isBullet_space in * by assumption. now apply IH.
    + rewrite isBullet_nonspace in * by assumption.
      now rewrite collapse_headSpace.
Qed.

Lemma collapse_bulletNormal (t : jsstring) (k : nat) :
  bulletNormal t = true -> bulletNormal (collapseBreaks k t) = true.
Proof.
  intros H. unfold bulletNormal in H. apply orb_prop in H. destruct H as [H|H].
  - apply bulletNormal_of_not_bullet, collapse_not_created.
    now destruct (isBullet t).
  - apply startsWith_bullet in H. destruct H as [r ->].
    apply bulletNormal_prefix.
Qed.

Lemma collapse_bullets :
  forall t k b,
    (2 <= k -> b = true) ->
    atLineStarts bulletNormal b t = true ->
    atLineStarts bulletNormal b (collapseBreaks k t) = true.
Proof.
  induction t as [|c t IH]; intros k b Hk H; [assumption|].
  pose proof H as H0. cbn [atLineStarts] in H.
  apply andb_prop in H. destruct H as [Hq Ht].
  assert (Hq' : (if b then bulletNormal (collapseBreaks k (c :: t)) else true) = true).
  { destruct b; [|reflexivity]. now apply collapse_bulletNormal. }
  cbn [collapseBreaks] in *. destruct (isChar LF c) eqn:E.
  - apply isChar_eq in E. subst c. change (isLineTerminator LF) with true in Ht.
    destruct (2 <=? k) eqn:K.
    + apply Nat.leb_le in K. rewrite (Hk K). now apply IH.
    + cbn [atLineStarts]. rewrite Hq'. apply (IH (S k) true); auto.
  - cbn [atLineStarts]. rewrite Hq'. apply IH; [lia | assumption].
Qed.

(* ------------------------------------------------------------------ *)
(** *** The indentation pass *)

Lemma strip_head (s : jsstring) (b : bool) :
  headSpace s = false -> stripIndent b s = stripIndent false s.
Proof.
  destruct s as [|c t]; [reflexivity|]. simpl. intros ->.
  now rewrite andb_false_r.
Qed.

Lemma strip_run (s : jsstring) :
  stripIndent true s =
  stripIndent true (skipn (countWhile isSpace None s) s).
Proof.
  induction s as [|c t IH]; [reflexivity|].
  cbn [countWhile option_map]. destruct (isSpace c) eqn:E; [|reflexivity].
  cbn [skipn stripIndent andb]. now rewrite E.
Qed.

Lemma headSpace_stop (s : jsstring) :
  headSpace (skipn (countWhile isSpace None s) s) = false.
Proof.
  pose proof (countWhile_stop isSpace s) as H.
  now destruct (skipn (countWhile isSpace None s) s).
Qed.

Lemma indent_strip :
  forall s prev,
    replaceFrom reIndent [] 0 prev s = stripIndent (atLineStart true prev) s.
Proof.
  induction s as [s IH] using length_ind. intros prev.
  pose proof (exec_reIndent prev s) as E.
  destruct (atLineStart true prev) eqn:B;
    [destruct (countWhile isSpace None s <? 1) eqn:R|].
  - apply Nat.ltb_lt in R. destruct s as [|c t]; [now rewrite replaceFrom_nil|].
    rewrite replaceFrom_nomatch, IH by (assumption || simpl; lia).
    cbn [countWhile option_map stripIndent andb] in *.
    destruct (isSpace c); [lia | reflexivity].
  - apply Nat.ltb_ge in R.
    destruct (countWhile isSpace None s) as [|n] eqn:Hn; [lia|].
    pose proof (exec_le _ _ _ _ E) as Hle.
    rewrite (replaceFrom_match _ [] _ _ _ E).
    rewrite IH by (rewrite length_skipn; lia).
    rewrite strip_run, Hn. cbn [app].
    rewrite <- Hn. rewrite (strip_head _ true (headSpace_stop s)).
    apply strip_head, headSpace_stop.
  - destruct s as [|c t]; [now rewrite replaceFrom_nil|].
    rewrite replaceFrom_nomatch, IH by (assumption || simpl; lia).
    reflexivity.
Qed.

(** After the indentation pass no line opens with whitespace. *)
Lemma strip_unindented :
  forall s b, atLineStarts unindented b (stripIndent b s) = true.
Proof.
  induction s as [|c t IH]; intros b; [now destruct b|].
  cbn [stripIndent]. destruct (b && isSpace c) eqn:E.
  - apply andb_prop in E. destruct E as [-> _]. apply IH.
  - cbn [atLineStarts]. rewrite IH, andb_true_r.
    destruct b; [|reflexivity]. simpl in E. unfold unindented. simpl.
    now rewrite E.
Qed.

Lemma strip_headSpace (t : jsstring) :
  headSpace (stripIndent false t) = headSpace t.
Proof. now destruct t. Qed.

Lemma strip_bullets :
  forall s b,
    atLineStarts bulletNormal b s = true ->
    atLineStarts bulletNormal b (stripIndent b s) = true.
Proof.
  induction s as [|c t IH]; intros b H; [assumption|].
  cbn [atLineStarts stripIndent] in *.
  apply andb_prop in H. destruct H as [Hq Ht].
  destruct (b && isSpace c) eqn:E.
  - apply andb_prop in E. destruct E as [-> Hc].
    apply IH, atLineStarts_here with (b := isLineTerminator c); [|assumption].
    apply bulletNormal_of_not_bullet. now apply bulletNormal_space with c.
  - cbn [atLineStarts]. rewrite (IH _ Ht), andb_true_r.
    destruct b; [|reflexivity]. simpl in E.
    rewrite (not_space_not_lineTerminator _ E).
    unfold bulletNormal in Hq. apply orb_prop in Hq. destruct Hq as [Hq|Hq].
    + apply bulletNormal_of_not_bullet.
      rewrite isBullet_nonspace in * by assumption.
      rewrite strip_headSpace. now destruct (isBulletMark c && headSpace t).
    + apply startsWith_bullet in Hq. destruct Hq as [r Hq].
      injection Hq as -> ->. apply bulletNormal_prefix.
Qed.

(* ------------------------------------------------------------------ *)
(** *** [trim] *)

Lemma dropWhile_headSpace (s : jsstring) :
  headSpace (dropWhile isSpace s) = false.
Proof.
  induction s as [|c t IH]; [reflexivity|]. simpl.
  destruct (isSpace c) eqn:E; [assumption | simpl; assumption].
Qed.

Lemma dropWhile_id (s : jsstring) :
  headSpace s = false -> dropWhile isSpace s = s.
Proof. destruct s as [|c t]; [reflexivity|]. simpl. now intros ->. Qed.

Lemma dropWhile_split (s : jsstring) :
  exists w, s = w ++ dropWhile isSpace s /\ forallb isSpace w = true.
Proof.
  induction s as [|c t (w & E & Hw)]; [now exists []|]. simpl.
  destruct (isSpace c) eqn:Hc.
  - exists (c :: w). simpl. rewrite Hc, Hw. split; [congruence | reflexivity].
  - now exists [].
Qed.

(** [trim] of a text that does not open with whitespace cuts a
    whitespace tail. *)
Lemma trim_tail (s : jsstring) :
  headSpace s = false ->
  exists w, s = trim s ++ w /\ forallb isSpace w = true.
Proof.
  intros H. unfold trim. rewrite (dropWhile_id s H).
  destruct (dropWhile_split (rev s)) as (w & E & Hw).
  exists (rev w). split.
  - rewrite <- rev_app_distr, <- E. now rewrite rev_involutive.
  - rewrite forallb_forall in *. intros x Hx. apply Hw. now apply in_rev.
Qed.

Lemma trim_last (s : jsstring) : headSpace (rev (trim s)) = false.
Proof. unfold trim. rewrite rev_involutive. apply dropWhile_headSpace. Qed.

Lemma trim_fixed (s : jsstring) :
  headSpace s = false -> headSpace (rev s) = false -> trim s = s.
Proof.
  intros H1 H2. unfold trim.
  now rewrite (dropWhile_id s H1), (dropWhile_id _ H2), rev_involutive.
Qed.

Lemma trim_In (x : char) (s : jsstring) : In x (trim s) -> In x s.
Proof.
  assert (D : forall l, In x (dropWhile isSpace l) -> In x l).
  { induction l as [|c t IH]; simpl; [tauto|].
    destruct (isSpace c); simpl; tauto. }
  unfold trim. intros H. apply in_rev in H. apply D in H.
  apply in_rev in H. now apply D.
Qed.

(** Cutting a tail keeps a line-start property that does not depend on
    the tail. *)
Lemma atLineStarts_cut (q : jsstring -> bool) (w : jsstring) :
  (forall u, q (u ++ w) = true -> q u = true) ->
  forall y b, atLineStarts q b (y ++ w) = true -> atLineStarts q b y = true.
Proof.
  intros Hq. induction y as [|c y IH]; intros b H.
  - simpl. destruct b; [|reflexivity].
    rewrite (Hq []); [reflexivity|].
    destruct w; simpl in H; apply andb_prop in H; tauto.
  - simpl in *. apply andb_prop in H. destruct H as [H1 H2].
    rewrite (IH _ H2), andb_true_r.
    destruct b; [|reflexivity]. now apply (Hq (c :: y)).
Qed.

Lemma unindented_cut (w u : jsstring) :
  unindented (u ++ w) = true -> unindented u = true.
Proof. now destruct u. Qed.

Lemma isBullet_app (w : jsstring) :
  forall u, isBullet u = true -> isBullet (u ++ w) = true.
Proof.
  induction u as [|c u IH]; [discriminate|]. intros H. simpl app.
  destruct (isSpace c) eqn:E.
  - rewrite isBullet_space in * by assumption. now apply IH.
  - rewrite isBullet_nonspace in * by assumption.
    apply andb_prop in H. destruct H as [-> H].
    destruct u; [discriminate|]. exact H.
Qed.

Lemma bulletNormal_cut (w u : jsstring) :
  bulletNormal (u ++ w) = true -> bulletNormal u = true.
Proof.
  intros H. destruct (isBullet u) eqn:B;
    [|now apply bulletNormal_of_not_bullet].
  unfold bulletNormal in *. rewrite B. rewrite (isBullet_app w u B) in H.
  simpl in *. destruct u as [|c [|d r]]; [discriminate| |exact H].
  destruct (isSpace c) eqn:E.
  - now rewrite isBullet_space in B by assumption.
  - rewrite isBullet_nonspace in B by assumption. simpl in B.
    now rewrite andb_false_r in B.
Qed.

(* ================================================================== *)
(** ** The formatting pass and its fixed points *)

Lemma star_removed :
  forall s skip prev, ~ In STAR (replaceFrom reStar [] skip prev s).
Proof.
  induction s as [|c t IH]; intros skip prev; cbn [replaceFrom].
  - destruct skip; [destruct (exec reStar prev [])|]; simpl; tauto.
  - destruct skip as [|k]; [|apply IH].
    rewrite exec_reStar. destruct (isChar STAR c) eqn:E; cbn [app]; [apply IH|].
    intros [H|H]; [|now apply IH in H].
    subst c. discriminate.
Qed.

Lemma noStar_In (s : jsstring) : ~ In STAR s -> noStar s = true.
Proof.
  intros H. unfold noStar. rewrite forallb_forall. intros x Hx.
  destruct (isChar STAR x) eqn:E; [|reflexivity].
  apply isChar_eq in E. now subst.
Qed.

Lemma format_noStar (x : jsstring) : noStar (formatSectionContent x) = true.
Proof.
  apply noStar_In. unfold formatSectionContent, replaceAll. intros H.
  apply trim_In in H.
  apply replaceFrom_In in H. destruct H as [[]|H].
  apply replaceFrom_In in H. destruct H as [[H|[H|[]]]|H]; try discriminate.
  apply replaceFrom_In in H. destruct H as [[H|[H|[]]]|H]; try discriminate.
  now apply star_removed in H.
Qed.

Lemma atLineStarts_head (q : jsstring -> bool) (s : jsstring) :
  atLineStarts q true s = true -> q s = true.
Proof. destruct s; simpl; intros H; apply andb_prop in H; tauto. Qed.

(** The formatting pass, with the last three steps as scanners. *)
Lemma format_scanners (x : jsstring) :
  formatSectionContent x =
  trim (stripIndent true
          (collapseBreaks 0
             (replaceAll reBullet bulletPrefix
                (replaceAll reStar [] (replaceAll reBold [] x))))).
Proof.
  unfold formatSectionContent, replaceAll.
  now rewrite indent_strip, breaks_collapse.
Qed.

(** The output of the formatting pass is tidy. *)
Lemma format_tidy (x : jsstring) : tidy (formatSectionContent x) = true.
Proof.
  unfold tidy. rewrite format_noStar. rewrite format_scanners.
  set (w := replaceAll reBullet bulletPrefix _).
  assert (Hw : atLineStarts bulletNormal true w = true)
    by apply (bullet_normalises _ None).
  apply (collapse_bullets w 0 true) in Hw; [|lia].
  apply strip_bullets in Hw.
  pose proof (strip_unindented (collapseBreaks 0 w) true) as Hu.
  set (z := stripIndent true _) in *.
  assert (Hz : headSpace z = false).
  { apply atLineStarts_head in Hu. unfold unindented in Hu.
    now destruct (headSpace z). }
  destruct (trim_tail z Hz) as (tl & E & _).
  rewrite E in Hu, Hw.
  apply (atLineStarts_cut _ tl (unindented_cut tl)) in Hu.
  apply (atLineStarts_cut _ tl (bulletNormal_cut tl)) in Hw.
  now rewrite Hu, Hw, trim_last.
Qed.

Lemma star_fixed (lo : nat) (hi : option nat) (r : regex) (repl : jsstring) :
  forall s prev,
    noStar s = true ->
    fixedBy (Rep (isChar STAR) (S lo) hi :: r) repl prev s.
Proof.
  set (re := Rep (isChar STAR) (S lo) hi :: r).
  induction s as [|c t IH]; intros prev H; cbn [fixedBy]; split; try exact I.
  - destruct (exec re prev (c :: t)) eqn:E; [|exact I].
    apply exec_head in E. destruct E as (? & ? & E & Hc).
    injection E as <- <-. simpl in H. now rewrite Hc in H.
  - apply IH. simpl in H. apply andb_prop in H. tauto.
Qed.

Lemma bullet_fixed :
  forall s prev,
    atLineStarts bulletNormal (atLineStart true prev) s = true ->
    fixedBy reBullet bulletPrefix prev s.
Proof.
  assert (Here : forall s prev,
             atLineStarts bulletNormal (atLineStart true prev) s = true ->
             match exec reBullet prev s with
             | Some n => n <> 0 /\ firstn n s = bulletPrefix
             | None => True
             end).
  { intros s prev H. rewrite exec_reBullet.
    destruct (atLineStart true prev); [|exact I].
    apply atLineStarts_head in H. unfold bulletNormal, isBullet in H.
    destruct (bulletLen s) eqn:E; [|exact I]. simpl in H.
    apply startsWith_bullet in H. destruct H as [r ->].
    unfold bulletLen in E. simpl in E. injection E as <-. now split. }
  induction s as [|c t IH]; intros prev H; cbn [fixedBy]; split;
    try exact I; try now apply Here.
  apply IH. cbn [atLineStarts] in H. apply andb_prop in H. tauto.
Qed.

Lemma breaks_fixed :
  forall s b prev,
    atLineStarts unindented b s = true ->
    fixedBy reBreaks twoBreaks prev s.
Proof.
  assert (Here : forall s b prev,
             atLineStarts unindented b s = true ->
             exec reBreaks prev s = None).
  { intros s b prev H. rewrite exec_reBreaks.
    destruct (countWhile (isChar LF) None s <? 3) eqn:R; [reflexivity|].
    apply Nat.ltb_ge in R. exfalso.
    destruct s as [|c1 [|c2 t]]; cbn [countWhile option_map] in R; try lia.
    - destruct (isChar LF c1); lia.
    - destruct (isChar LF c1) eqn:E1; [|lia].
      destruct (isChar LF c2) eqn:E2; [|lia].
      apply isChar_eq in E1, E2. subst.
      cbn [atLineStarts] in H. change (isLineTerminator LF) with true in H.
      change (unindented (LF :: t)) with false in H.
      rewrite andb_false_l, andb_false_r in H. discriminate. }
  induction s as [|c t IH]; intros b prev H; cbn [fixedBy]; split;
    try exact I; try now rewrite (Here _ b).
  apply (IH (isLineTerminator c)).
  cbn [atLineStarts] in H. apply andb_prop in H. tauto.
Qed.

Lemma indent_fixed :
  forall s prev,
    atLineStarts unindented (atLineStart true prev) s = true ->
    fixedBy reIndent [] prev s.
Proof.
  assert (Here : forall s prev,
             atLineStarts unindented (atLineStart true prev) s = true ->
             exec reIndent prev s = None).
  { intros s prev H. rewrite exec_reIndent.
    destruct (atLineStart true prev); [|reflexivity].
    apply atLineStarts_head in H. unfold unindented in H.
    destruct s as [|c t]; [reflexivity|]. simpl in H.
    cbn [countWhile option_map]. now destruct (isSpace c). }
  induction s as [|c t IH]; intros prev H; cbn [fixedBy]; split;
    try exact I; try now rewrite Here.
  apply IH. cbn [atLineStarts] in H. apply andb_prop in H. tauto.
Qed.

(** The formatting pass leaves a tidy text as it is. *)
Lemma tidy_fixed (y : jsstring) :
  tidy y = true -> formatSectionContent y = y.
Proof.
  unfold tidy. intros H.
  apply andb_prop in H. destruct H as [H He].
  apply andb_prop in H. destruct H as [H Hb].
  apply andb_prop in H. destruct H as [Hs Hu].
  unfold formatSectionContent.
  rewrite (fixedBy_replaceAll reBold) by now apply star_fixed.
  rewrite (fixedBy_replaceAll reStar) by now apply star_fixed.
  rewrite (fixedBy_replaceAll reBullet) by now apply bullet_fixed.
  rewrite (fixedBy_replaceAll reBreaks) by now apply (breaks_fixed y true).
  rewrite (fixedBy_replaceAll reIndent) by now apply indent_fixed.
  apply trim_fixed.
  - apply atLineStarts_head in Hu. unfold unindented in Hu.
    now destruct (headSpace y).
  - now destruct (headSpace (rev y)).
Qed.

(* ================================================================== *)
(** ** The line loop *)

Section GroupFacts.

Variable toLowerCase : jsstring -> jsstring.

Lemma pushCurrent_emit (st : scanState) :
  pushCurrent st = sections st ++ emit (currentSection st) (currentContent st).
Proof.
  unfold pushCurrent, emit.
  destruct (nonEmpty (currentSection st) && nonEmpty (trim (currentContent st)));
    [reflexivity | now rewrite app_nil_r].
Qed.

Lemma scan_groups :
  forall lines st,
    pushCurrent (fold_left (scanLine toLowerCase) lines st) =
    sections st
    ++ emit (currentSection st)
            (currentContent st ++ joinLines (fst (groups toLowerCase lines)))
    ++ flat_map emitGroup (snd (groups toLowerCase lines)).
Proof.
  induction lines as [|l r IH]; intros st.
  - simpl. now rewrite !app_nil_r, pushCurrent_emit.
  - cbn [fold_left groups]. rewrite IH. unfold scanLine.
    destruct (groups toLowerCase r) as [pre gs].
    destruct (matchedHeader toLowerCase l) as [h|]; cbn [sections
      currentSection currentContent fst snd flat_map joinLines map concat app].
    + rewrite pushCurrent_emit, app_nil_r, <- !app_assoc. reflexivity.
    + fold (joinLines pre). now rewrite <- !app_assoc.
Qed.

(** The loop yields the groups with a non-blank body, in their order. *)
Lemma scanLines_groups (lines : list jsstring) :
  scanLines toLowerCase lines = flat_map emitGroup (snd (groups toLowerCase lines)).
Proof. unfold scanLines. now rewrite scan_groups. Qed.

Lemma matchedHeader_In (line h : jsstring) :
  matchedHeader toLowerCase line = Some h -> In h sectionHeaders.
Proof. intros H. now apply find_some in H. Qed.

Lemma sectionHeaders_nonEmpty (h : jsstring) :
  In h sectionHeaders -> nonEmpty h = true.
Proof.
  unfold sectionHeaders. simpl.
  intros H. repeat (destruct H as [<-|H]; [reflexivity|]). destruct H.
Qed.

Lemma groups_headers (lines : list jsstring) :
  map fst (snd (groups toLowerCase lines)) = matchedHeaders toLowerCase lines.
Proof.
  induction lines as [|l r IH]; [reflexivity|].
  cbn [groups matchedHeaders flat_map]. fold (matchedHeaders toLowerCase r).
  rewrite <- IH. destruct (groups toLowerCase r) as [pre gs].
  now destruct (matchedHeader toLowerCase l).
Qed.

Lemma groups_titles_nonEmpty (lines : list jsstring) :
  forall g, In g (snd (groups toLowerCase lines)) -> nonEmpty (fst g) = true.
Proof.
  induction lines as [|l r IH]; [intros g []|].
  cbn [groups]. destruct (groups toLowerCase r) as [pre gs].
  destruct (matchedHeader toLowerCase l) as [h|] eqn:E; [|exact IH].
  intros g [<-|Hg]; [|now apply IH].
  apply sectionHeaders_nonEmpty, matchedHeader_In with l, E.
Qed.

Lemma scanLines_titles (lines : list jsstring) :
  map title (scanLines toLowerCase lines) =
  map fst (filter nonBlank (snd (groups toLowerCase lines))).
Proof.
  rewrite scanLines_groups.
  pose proof (groups_titles_nonEmpty lines) as H.
  induction (snd (groups toLowerCase lines)) as [|g gs IH]; [reflexivity|].
  cbn [flat_map filter]. rewrite map_app, IH by (intros; apply H; now right).
  unfold emitGroup, emit, nonBlank.
  rewrite (H g) by now left.
  now destruct (nonEmpty (trim (joinLines (snd g)))).
Qed.

(** Lines before the first header leave no trace in the loop's result. *)
Lemma groups_preamble :
  forall pre rest,
    forallb (fun l => isNone (matchedHeader toLowerCase l)) pre = true ->
    snd (groups toLowerCase (pre ++ rest)) = snd (groups toLowerCase rest).
Proof.
  induction pre as [|l pre IH]; intros rest H; [reflexivity|].
  simpl in H. apply andb_prop in H. destruct H as [Hl H].
  cbn [app groups]. specialize (IH rest H).
  destruct (groups toLowerCase (pre ++ rest)) as [p gs].
  destruct (matchedHeader toLowerCase l); [discriminate | exact IH].
Qed.

Lemma scanLines_preamble (pre rest : list jsstring) :
  forallb (fun l => isNone (matchedHeader toLowerCase l)) pre = true ->
  scanLines toLowerCase (pre ++ rest) = scanLines toLowerCase rest.
Proof.
  intros H. now rewrite !scanLines_groups, groups_preamble.
Qed.

Lemma scanLines_no_header (lines : list jsstring) :
  forallb (fun l => isNone (matchedHeader toLowerCase l)) lines = true ->
  scanLines toLowerCase lines = [].
Proof.
  intros H. rewrite <- (app_nil_r lines), scanLines_preamble by assumption.
  reflexivity.
Qed.

End GroupFacts.

(* ================================================================== *)
(** ** String tests *)

Lemma jsEqb_eq : forall a b, jsEqb a b = true <-> a = b.
Proof.
  induction a as [|x a IH]; intros [|y b]; simpl; split; intros H;
    try reflexivity; try discriminate.
  - apply andb_prop in H. destruct H as [H1 H2].
    apply N.eqb_eq in H1. apply IH in H2. congruence.
  - injection H as -> ->. rewrite N.eqb_refl. now apply IH.
Qed.

Lemma startsWith_spec : forall p s, startsWith s p = true <-> exists r, s = p ++ r.
Proof.
  induction p as [|y p IH]; intros s; simpl.
  - split; [now exists s | reflexivity].
  - destruct s as [|x s].
    + split; [discriminate | intros [r H]; discriminate].
    + rewrite andb_true_iff, N.eqb_eq, IH. split.
      * intros [-> [r ->]]. now exists r.
      * intros [r H]. injection H as -> ->. split; [reflexivity | now exists r].
Qed.

Lemma includes_spec : forall s sub, includes s sub = true <-> substring sub s.
Proof.
  induction s as [|c s IH]; intros sub; cbn [includes];
    rewrite orb_true_iff, startsWith_spec.
  - split.
    + intros [[r H]|H]; [|discriminate]. exists [], r. exact H.
    + intros (pre & post & H). left. destruct pre; [|discriminate].
      now exists post.
  - rewrite IH. split.
    + intros [[r H]|(pre & post & H)].
      * exists [], r. exact H.
      * exists (c :: pre), post. simpl. now rewrite H.
    + intros ([|x pre] & post & H).
      * left. now exists post.
      * right. injection H as -> ->. now exists pre, post.
Qed.

Lemma countWhile_firstn (p : char -> bool) :
  forall s, forallb p (firstn (countWhile p None s) s) = true.
Proof.
  induction s as [|c t IH]; [reflexivity|]. cbn [countWhile option_map].
  destruct (p c) eqn:E; [|reflexivity]. simpl. now rewrite E.
Qed.

Lemma countWhile_app (p : char -> bool) (c : char) (rest : jsstring) :
  p c = false ->
  forall ds, forallb p ds = true ->
             countWhile p None (ds ++ c :: rest) = length ds.
Proof.
  intros Hc. induction ds as [|d ds IH]; cbn [app countWhile option_map].
  - now rewrite Hc.
  - simpl. intros H. apply andb_prop in H. destruct H as [-> H].
    now rewrite IH.
Qed.

Lemma skipn_length_app (a b : jsstring) : skipn (length a) (a ++ b) = b.
Proof. induction a as [|x a IH]; [reflexivity | exact IH]. Qed.

Lemma digit_not_dot (c : char) : isDigit c = true -> isChar DOT c = false.
Proof.
  unfold isDigit, isChar, DOT. intros H.
  apply andb_prop in H. destruct H as [H _]. apply N.leb_le in H.
  apply N.eqb_neq. lia.
Qed.

Lemma exec_reNumbered (s : jsstring) :
  exec reNumbered None s =
  let n := countWhile isDigit None s in
  if n <? 1 then None
  else match skipn n s with
       | c :: _ => if isChar DOT c then Some (n + 1) else None
       | [] => None
       end.
Proof.
  unfold reNumbered. rewrite exec_Bol. cbn [atLineStart].
  rewrite exec_Rep. cbv zeta.
  destruct (countWhile isDigit None s <? 1) eqn:R; [reflexivity|].
  apply Nat.ltb_ge in R. rewrite backtrack_top.
  - replace (1 + (countWhile isDigit None s - 1))
      with (countWhile isDigit None s) by lia.
    rewrite exec_one. destruct (skipn _ s) as [|c t]; [reflexivity|].
    now destruct (isChar DOT c).
  - intros k Hk.
    destruct (countWhile_skipn isDigit s k) as (c & t & E & Hc); [lia|].
    now rewrite exec_one, E, (digit_not_dot _ Hc).
Qed.

Lemma search_anchored :
  forall t c, search reNumbered (Some c) t = false.
Proof. induction t as [|d t IH]; intros c; simpl; [reflexivity | apply IH]. Qed.

Lemma search_reNumbered (s : jsstring) :
  search reNumbered None s = true <-> numbered s.
Proof.
  assert (E : search reNumbered None s = negb (isNone (exec reNumbered None s))).
  { destruct s as [|c t]; cbn [search]; destruct (exec reNumbered None _);
      try reflexivity. apply search_anchored. }
  rewrite E, exec_reNumbered. cbv zeta. split.
  - destruct (countWhile isDigit None s <? 1) eqn:R; [discriminate|].
    apply Nat.ltb_ge in R.
    destruct (skipn (countWhile isDigit None s) s) as [|c t] eqn:Hs;
      [discriminate|].
    destruct (isChar DOT c) eqn:Hc; [|discriminate]. intros _.
    apply isChar_eq in Hc. subst c.
    exists (firstn (countWhile isDigit None s) s), t. repeat split.
    + intros H. apply (f_equal (@length _)) in H. rewrite length_firstn in H.
      pose proof (countWhile_le isDigit s None). simpl in H. lia.
    + apply countWhile_firstn.
    + now rewrite <- Hs, firstn_skipn.
  - intros (ds & rest & Hne & Hd & ->).
    rewrite (countWhile_app isDigit DOT rest eq_refl ds Hd).
    rewrite skipn_length_app.
    destruct ds as [|d ds]; [congruence | reflexivity].
Qed.

(* ================================================================== *)
(** ** Evaluating on plain text

    On a text of plain code units the result does not depend on the
    host's case tables. *)

Lemma allPlain_In (s : jsstring) :
  allPlain s = true <-> forall x, In x s -> isPlain x = true.
Proof. apply forallb_forall. Qed.

Lemma trim_plain (s : jsstring) : allPlain s = true -> allPlain (trim s) = true.
Proof.
  rewrite !allPlain_In. intros H x Hx. now apply H, trim_In.
Qed.

Lemma replaceAll_plain (re : regex) (repl s : jsstring) :
  allPlain repl = true -> allPlain s = true ->
  allPlain (replaceAll re repl s) = true.
Proof.
  rewrite !allPlain_In. intros Hr Hs x Hx.
  apply replaceFrom_In in Hx. destruct Hx; auto.
Qed.

Lemma cleanContent_plain (raw : jsstring) :
  allPlain raw = true -> allPlain (cleanContent raw) = true.
Proof.
  intros H. unfold cleanContent.
  apply trim_plain. repeat apply replaceAll_plain; auto.
Qed.

Lemma split_In (sep : char) :
  forall s l, In l (split sep s) -> forall x, In x l -> In x s.
Proof.
  induction s as [|c t IH]; intros l Hl x Hx.
  - destruct Hl as [<-|[]]. destruct Hx.
  - cbn [split] in Hl. destruct (c =? sep)%N.
    + destruct Hl as [<-|Hl]; [destruct Hx|]. right. now apply IH with l.
    + destruct (split sep t) as [|l0 ls] eqn:E.
      * destruct Hl as [<-|[]]. destruct Hx as [<-|[]]. now left.
      * destruct Hl as [<-|Hl].
        -- destruct Hx as [<-|Hx]; [now left|]. right.
           apply IH with l0; [now left | assumption].
        -- right. apply IH with l; [now right | assumption].
Qed.

Lemma split_plain (s : jsstring) :
  allPlain s = true -> Forall (fun l => allPlain l = true) (split LF s).
Proof.
  intros H. apply Forall_forall. intros l Hl. rewrite allPlain_In in *.
  intros x Hx. apply H. now apply split_In with LF l.
Qed.

Lemma find_ext_In {A : Type} (f g : A -> bool) :
  forall l, (forall a, In a l -> f a = g a) -> find f l = find g l.
Proof.
  induction l as [|a l IH]; intros H; [reflexivity|]. simpl.
  rewrite (H a) by now left. destruct (g a); [reflexivity|].
  apply IH. intros; apply H; now right.
Qed.

Section Plain.

Variable toLowerCase : jsstring -> jsstring.
Hypothesis lowers : LowersPlain toLowerCase.

Lemma matchedHeader_plain (line : jsstring) :
  allPlain line = true ->
  matchedHeader toLowerCase line = matchedHeader lowerPlain line.
Proof.
  intros H. unfold matchedHeader. apply find_ext_In. intros h Hh.
  assert (Hp : allPlain h = true).
  { revert h Hh. apply forallb_forall. reflexivity. }
  unfold headerTest. now rewrite !lowers by (try apply trim_plain; assumption).
Qed.

Lemma scanLines_plain (lines : list jsstring) :
  Forall (fun l => allPlain l = true) lines ->
  scanLines toLowerCase lines = scanLines lowerPlain lines.
Proof.
  intros H. unfold scanLines. f_equal. generalize initScan.
  induction H as [|l r Hl _ IH]; intros st; [reflexivity|].
  cbn [fold_left]. rewrite IH. f_equal.
  unfold scanLine. now rewrite matchedHeader_plain.
Qed.

Lemma parse_plain (raw : jsstring) :
  allPlain raw = true ->
  parseBusinessPlanSections toLowerCase raw =
  parseBusinessPlanSections lowerPlain raw.
Proof.
  intros H. unfold parseBusinessPlanSections.
  now rewrite scanLines_plain by now apply split_plain, cleanContent_plain.
Qed.

End Plain.

(* ================================================================== *)
(** ** Lines of a tidy text *)

Lemma split_hd_app (s : jsstring) :
  exists post, s = hd [] (split LF s) ++ post.
Proof.
  induction s as [|c t [post IH]]; [now exists []|].
  cbn [split]. destruct (c =? LF)%N.
  - now exists (c :: t).
  - destruct (split LF t) as [|l ls]; simpl in *.
    + exists t. reflexivity.
    + exists post. now rewrite IH at 1.
Qed.

Lemma split_nonempty (s : jsstring) : split LF s <> [].
Proof.
  destruct s as [|c t]; cbn [split]; [discriminate|].
  destruct (c =? LF)%N; [discriminate|]. now destruct (split LF t).
Qed.

(** A line-start property that does not depend on what follows holds of
    every line. *)
Lemma lines_atLineStarts (q : jsstring -> bool) :
  (forall u w, q (u ++ w) = true -> q u = true) ->
  forall s b,
    atLineStarts q b s = true ->
    forallb q (if b then split LF s else tl (split LF s)) = true.
Proof.
  intros Hcut. induction s as [|c t IH]; intros b H.
  - destruct b; [|reflexivity]. simpl in *. now rewrite andb_true_r in *.
  - cbn [atLineStarts] in H. apply andb_prop in H. destruct H as [Hq Ht].
    specialize (IH _ Ht). cbn [split].
    destruct (c =? LF)%N eqn:E.
    + apply N.eqb_eq in E. subst c. change (isLineTerminator LF) with true in IH.
      destruct b; [|exact IH]. cbn [forallb]. rewrite IH, andb_true_r.
      now apply (Hcut [] (LF :: t)).
    + destruct (split_hd_app t) as [post Hp].
      pose proof (split_nonempty t) as Hne.
      destruct (split LF t) as [|l ls]; [congruence|]. simpl in Hp.
      assert (Hls : forallb q ls = true).
      { destruct (isLineTerminator c); [|exact IH].
        simpl in IH. apply andb_prop in IH. tauto. }
      destruct b; [|exact Hls]. cbn [forallb]. rewrite Hls, andb_true_r.
      apply (Hcut (c :: l) post). simpl. now rewrite <- Hp.
Qed.

Lemma includes_head (s : jsstring) (x : char) (p : jsstring) :
  includes s (x :: p) = true -> In x s.
Proof.
  rewrite includes_spec. intros (pre & post & ->).
  apply in_or_app. right. now left.
Qed.

Lemma noStar_not_In (s : jsstring) : noStar s = true -> ~ In STAR s.
Proof.
  unfold noStar. rewrite forallb_forall. intros H Hin.
  specialize (H _ Hin). discriminate.
Qed.

Lemma unindented_no_blank_run :
  forall s b, atLineStarts unindented b s = true ->
              includes s [LF; LF] = false.
Proof.
  induction s as [|c t IH]; intros b H; [reflexivity|].
  cbn [atLineStarts] in H. apply andb_prop in H. destruct H as [_ Ht].
  cbn [includes]. rewrite (IH _ Ht), orb_false_r.
  destruct (startsWith (c :: t) [LF; LF]) eqn:E; [|reflexivity].
  apply startsWith_spec in E. destruct E as [r E]. injection E as -> ->.
  simpl in Ht. discriminate.
Qed.

Lemma includes_longer (s p q : jsstring) :
  includes s (p ++ q) = true -> includes s p = true.
Proof.
  rewrite !includes_spec. intros (pre & post & ->).
  exists pre, (q ++ post). now rewrite <- app_assoc.
Qed.

(* ================================================================== *)
(** ** Cleanliness of a section's content *)

Lemma tidy_clean (s : jsstring) : tidy s = true -> cleanButHeadings s = true.
Proof.
  unfold tidy, cleanButHeadings. intros H.
  apply andb_prop in H. destruct H as [H _].
  apply andb_prop in H. destruct H as [H Hb].
  apply andb_prop in H. destruct H as [Hs Hu].
  rewrite Hs.
  rewrite (lines_atLineStarts unindented (fun u w => unindented_cut w u) s true Hu).
  rewrite (lines_atLineStarts bulletNormal (fun u w => bulletNormal_cut w u) s true Hb).
  destruct (includes s [STAR; STAR]) eqn:E1.
  { apply includes_head in E1. now apply noStar_not_In in E1. }
  destruct (includes s [LF; LF; LF]) eqn:E2; [|reflexivity].
  apply (includes_longer s [LF; LF] [LF]) in E2.
  now rewrite (unindented_no_blank_run s true Hu) in E2.
Qed.

(* ================================================================== *)
(** ** Heading markers *)

























(** [trim] cuts a text out of its argument. *)
Lemma trim_middle (s : jsstring) : exists a b, s = a ++ trim s ++ b.
Proof.
  destruct (dropWhile_split s) as (a & Ea & _).
  destruct (dropWhile_split (rev (dropWhile isSpace s))) as (b & Eb & _).
  exists a, (rev b). unfold trim.
  rewrite <- rev_app_distr, <- Eb, rev_involutive. exact Ea.
Qed.




(* ------------------------------------------------------------------ *)
(** *** Where the contents come from *)

Lemma joinLines_app (a b : list jsstring) :
  joinLines (a ++ b) = joinLines a ++ joinLines b.
Proof. unfold joinLines. now rewrite map_app, concat_app. Qed.

Lemma joinLines_split (s : jsstring) : joinLines (split LF s) = s ++ [LF].
Proof.
  induction s as [|c t IH]; [reflexivity|]. cbn [split].
  destruct (c =? LF)%N eqn:E.
  - apply N.eqb_eq in E. subst c. unfold joinLines in *. simpl. now rewrite IH.
  - pose proof (split_nonempty t) as Hne.
    destruct (split LF t) as [|l ls]; [congruence|].
    unfold joinLines in *. simpl in *. now rewrite IH.
Qed.

Lemma joinLines_In (x : char) (b : list jsstring) :
  In x (joinLines b) -> x = LF \/ exists l, In l b /\ In x l.
Proof.
  induction b as [|l b IH]; [intros []|]. unfold joinLines in *. simpl.
  rewrite <- app_assoc. intros H. apply in_app_or in H. destruct H as [H|H].
  - right. exists l. auto.
  - destruct H as [H|H]; [now left|].
    destruct (IH H) as [E|(l' & Hl & Hx)]; [now left|].
    right. exists l'. auto.
Qed.

Lemma app_eq_snoc (X Y Z : jsstring) (x : char) :
  X ++ Y = Z ++ [x] -> Y <> [] -> exists w, Y = w ++ [x] /\ X ++ w = Z.
Proof.
  intros E Hne. destruct (exists_last Hne) as (w & y & ->).
  rewrite app_assoc in E. apply app_inj_tail in E. destruct E as [E ->].
  now exists w.
Qed.

Lemma Forall_flat_map_intro {A B : Type} (P : B -> Prop) (f : A -> list B) :
  forall l, (forall x, In x l -> Forall P (f x)) -> Forall P (flat_map f l).
Proof.
  induction l as [|a l IH]; intros H; [constructor|].
  cbn [flat_map]. apply Forall_app. split.
  - apply H. now left.
  - apply IH. intros; apply H; now right.
Qed.

Section Sources.

Variable toLowerCase : jsstring -> jsstring.

(** The body of every group is a run of consecutive lines. *)
Lemma groups_layout :
  forall ls,
    (exists C, ls = fst (groups toLowerCase ls) ++ C)
    /\ forall g, In g (snd (groups toLowerCase ls)) ->
                 exists A C, ls = A ++ snd g ++ C.
Proof.
  induction ls as [|l r [[C0 Hpre] IH]]; [split; [now exists [] | intros g []]|].
  cbn [groups]. destruct (groups toLowerCase r) as [pre gs]. simpl in *.
  destruct (matchedHeader toLowerCase l) as [h|]; simpl; split.
  - now exists (l :: r).
  - intros g [<-|Hg].
    + exists [l], C0. simpl. now rewrite <- Hpre.
    + destruct (IH g Hg) as (A & C & E). exists (l :: A), C. simpl. now rewrite <- E.
  - exists C0. now rewrite <- Hpre.
  - intros g Hg. destruct (IH g Hg) as (A & C & E).
    exists (l :: A), C. simpl. now rewrite <- E.
Qed.

(** The trimmed body of a group is cut out of the cleaned text. *)
Lemma body_in_text (s : jsstring) (g : jsstring * list jsstring) :
  In g (snd (groups toLowerCase (split LF s))) ->
  trim (joinLines (snd g)) = []
  \/ exists a b, s = a ++ trim (joinLines (snd g)) ++ b.
Proof.
  intros Hg. destruct (proj2 (groups_layout (split LF s)) g Hg) as (A & C & E).
  apply (f_equal joinLines) in E.
  rewrite joinLines_split, !joinLines_app in E.
  destruct (trim_middle (joinLines (snd g))) as (u & v & Ej).
  pose proof (trim_last (joinLines (snd g))) as Hl.
  remember (trim (joinLines (snd g))) as T eqn:ET. clear ET.
  rewrite Ej in E.
  assert (E' : (joinLines A ++ u ++ T) ++ (v ++ joinLines C) = s ++ [LF])
    by (rewrite E; now rewrite <- !app_assoc).
  destruct (v ++ joinLines C) as [|y w] eqn:Ev.
  - rewrite app_nil_r, app_assoc in E'. left.
    destruct T as [|t0 T']; [reflexivity|]. exfalso.
    apply app_eq_snoc in E'; [|discriminate].
    destruct E' as (w0 & E0 & _). rewrite E0, rev_app_distr in Hl.
    discriminate.
  - right. symmetry in E'. symmetry in E'. apply app_eq_snoc in E'; [|discriminate].
    destruct E' as (w0 & _ & E'). exists (joinLines A ++ u), w0.
    now rewrite <- E', <- !app_assoc.
Qed.

Lemma body_chars (s : jsstring) (g : jsstring * list jsstring) (x : char) :
  In g (snd (groups toLowerCase (split LF s))) ->
  In x (trim (joinLines (snd g))) -> x = LF \/ In x s.
Proof.
  intros Hg Hx. apply trim_In, joinLines_In in Hx.
  destruct Hx as [E|(l & Hl & Hx)]; [now left|]. right.
  destruct (proj2 (groups_layout (split LF s)) g Hg) as (A & C & E).
  apply split_In with LF l; [|assumption].
  rewrite E. apply in_or_app. right. apply in_or_app. now left.
Qed.

(** Every content of the result is the formatting pass applied to the
    cleaned text or to the trimmed body of a group. *)
Lemma parse_sources (raw : jsstring) :
  Forall (fun sec =>
            exists y, content sec = formatSectionContent y
                      /\ (y = cleanContent raw
                          \/ exists g,
                              In g (snd (groups toLowerCase
                                                (split LF (cleanContent raw))))
                              /\ y = trim (joinLines (snd g))))
         (parseBusinessPlanSections toLowerCase raw).
Proof.
  unfold parseBusinessPlanSections.
  set (P := fun sec => exists y, _).
  assert (H : Forall P (scanLines toLowerCase (split LF (cleanContent raw)))).
  { rewrite scanLines_groups.
    assert (Hall : forall g, In g (snd (groups toLowerCase
                                               (split LF (cleanContent raw)))) ->
                             Forall P (emitGroup g)).
    { intros g Hg. unfold emitGroup, emit.
      destruct (nonEmpty (fst g) && nonEmpty (trim (joinLines (snd g))));
        repeat constructor.
      exists (trim (joinLines (snd g))). split; [reflexivity|].
      right. now exists g. }
    now apply Forall_flat_map_intro. }
  destruct (scanLines toLowerCase (split LF (cleanContent raw))); [|exact H].
  repeat constructor. exists (cleanContent raw). auto.
Qed.

End Sources.

Lemma cleanContent_noStar (raw : jsstring) : noStar (cleanContent raw) = true.
Proof.
  apply noStar_In. unfold cleanContent, replaceAll. intros H.
  apply trim_In in H.
  apply replaceFrom_In in H. destruct H as [[H|[H|[]]]|H]; try discriminate.
  apply replaceFrom_In in H. destruct H as [[H|[H|[]]]|H]; try discriminate.
  apply replaceFrom_In in H. destruct H as [[]|H].
  now apply star_removed in H.
Qed.


(* ================================================================== *)
(** ** Properties of the sectionizer *)

Lemma lowerPlain_lowers : LowersPlain lowerPlain.
Proof. intros s _. reflexivity. Qed.





(** C2. The per-section formatting pass is idempotent: for every string
    [x], [formatSectionContent (formatSectionContent x)] equals
    [formatSectionContent x]. *)
Theorem formatSectionContent_idempotent (x : jsstring) :
  formatSectionContent (formatSectionContent x) = formatSectionContent x.
Proof. apply tidy_fixed, format_tidy. Qed.

(** C3. For every string, the empty one included, and whatever the
    host's lower-casing, [parseBusinessPlanSections] returns at least
    one section. *)
Theorem parse_never_empty (toLowerCase : jsstring -> jsstring) (s : jsstring) :
  1 <= length (parseBusinessPlanSections toLowerCase s).
Proof.
  unfold parseBusinessPlanSections.
  destruct (scanLines toLowerCase (split LF (cleanContent s))); simpl; lia.
Qed.

(** C4. A line opens a new section exactly when its trimmed text equals
    a canonical name up to case, or opens with digits and a full stop
    and contains a canonical name up to case; the loop then pushes the
    open section and starts the matched one with an empty content, and
    otherwise appends the line and a line feed.  The line
    ["3. Market Analysis — Q1"] is a header for ["Market Analysis"]. *)
Theorem header_line_forms (toLowerCase : jsstring -> jsstring) :
  (forall line,
      (exists h, matchedHeader toLowerCase line = Some h) <->
      (exists h, In h sectionHeaders /\
                 (toLowerCase (trim line) = toLowerCase h \/
                  (numbered (trim line) /\
                   substring (toLowerCase h) (toLowerCase (trim line))))))
  /\ (forall st line h,
         matchedHeader toLowerCase line = Some h ->
         scanLine toLowerCase st line = mkScan (pushCurrent st) h [])
  /\ (forall st line,
         matchedHeader toLowerCase line = None ->
         scanLine toLowerCase st line =
         mkScan (sections st) (currentSection st)
                (currentContent st ++ line ++ [LF]))
  /\ (LowersPlain toLowerCase ->
      matchedHeader toLowerCase numberedExample = Some marketAnalysis).
Proof.
  repeat split.
  - intros [h H]. apply find_some in H. destruct H as [Hin H].
    exists h. split; [assumption|]. unfold headerTest in H.
    apply andb_prop in H. destruct H as [Hi H].
    apply orb_prop in H. destruct H as [H|H].
    + right. split; [now apply search_reNumbered | now apply includes_spec].
    + left. now apply jsEqb_eq.
  - intros (h & Hin & H). unfold matchedHeader.
    destruct (find (headerTest toLowerCase (trim line)) sectionHeaders) eqn:E;
      [now eexists|].
    apply find_none with (x := h) in E; [|assumption].
    unfold headerTest in E. exfalso. destruct H as [H|[Hn Hs]].
    + rewrite H in E.
      assert (Hi : includes (toLowerCase h) (toLowerCase h) = true).
      { apply includes_spec. exists [], []. now rewrite app_nil_r. }
      assert (He : jsEqb (toLowerCase h) (toLowerCase h) = true)
        by now apply jsEqb_eq.
      rewrite Hi, He, orb_true_r in E. discriminate.
    + apply search_reNumbered in Hn. apply includes_spec in Hs.
      rewrite Hn, Hs in E. discriminate.
  - intros st line h H. unfold scanLine. now rewrite H.
  - intros st line H. unfold scanLine. now rewrite H.
  - intros L. now rewrite (matchedHeader_plain _ L).
Qed.

Lemma header_line_forms_witness :
  matchedHeader lowerPlain numberedExample = Some marketAnalysis.
Proof.
  exact (proj2 (proj2 (proj2 (header_line_forms lowerPlain))) lowerPlain_lowers).
Defined.

(** C5, as the code has it.  If no line of the globally cleaned text is
    a header, the result is the single section titled ["Business Plan"]
    whose content is the cleaned text after the formatting pass. *)
Theorem fallback_when_no_clean_line_matches
        (toLowerCase : jsstring -> jsstring) (s : jsstring) :
  forallb (fun l => isNone (matchedHeader toLowerCase l))
          (split LF (cleanContent s)) = true ->
  parseBusinessPlanSections toLowerCase s =
  [mkSection fallbackTitle (formatSectionContent (cleanContent s))].
Proof.
  intros H. unfold parseBusinessPlanSections.
  now rewrite scanLines_no_header.
Qed.

Lemma fallback_when_no_clean_line_matches_witness :
  parseBusinessPlanSections lowerPlain preambleOnly =
  [mkSection fallbackTitle preambleOnly].
Proof.
  exact (fallback_when_no_clean_line_matches lowerPlain preambleOnly eq_refl).
Defined.

(** C5, as stated, fails: no line of the input ["**Executive
    Summary**\nbody"] is a header, yet the result is the section
    ["Executive Summary"], not the fallback. *)
Lemma bold_header_not_fallback :
  forallb (fun l => isNone (matchedHeader lowerPlain l)) (split LF boldHeader)
  = true
  /\ parseBusinessPlanSections lowerPlain boldHeader
     = [mkSection executiveSummary (lit "body")]
  /\ parseBusinessPlanSections lowerPlain boldHeader
     <> [mkSection fallbackTitle
                   (formatSectionContent (cleanContent boldHeader))].
Proof.
  split; [|split]; [vm_compute; reflexivity | vm_compute; reflexivity |].
  vm_compute. discriminate.
Qed.

(** C6. The titles of the result are the headers of the cleaned text's
    lines, in the order of the lines, for those headers whose body is not
    blank (and the fallback title if there is none); the canonical order
    plays no part.  With ["Market Analysis"] before ["Executive Summary"]
    the titles come out in that order. *)
Theorem sections_in_input_order (toLowerCase : jsstring -> jsstring) :
  (forall raw,
      let gs := snd (groups toLowerCase (split LF (cleanContent raw))) in
      map fst gs = matchedHeaders toLowerCase (split LF (cleanContent raw))
      /\ map title (parseBusinessPlanSections toLowerCase raw) =
         match map fst (filter nonBlank gs) with
         | [] => [fallbackTitle]
         | ts => ts
         end)
  /\ (LowersPlain toLowerCase ->
      map title (parseBusinessPlanSections toLowerCase reversedOrder) =
      [marketAnalysis; executiveSummary]).
Proof.
  split.
  - intros raw gs. split; [apply groups_headers|].
    unfold parseBusinessPlanSections.
    pose proof (scanLines_titles toLowerCase (split LF (cleanContent raw))) as H.
    fold gs in H. rewrite <- H.
    now destruct (scanLines toLowerCase (split LF (cleanContent raw))).
  - intros L. now rewrite (parse_plain _ L).
Qed.

Lemma sections_in_input_order_witness :
  map title (parseBusinessPlanSections lowerPlain reversedOrder) =
  [marketAnalysis; executiveSummary].
Proof.
  exact (proj2 (sections_in_input_order lowerPlain) lowerPlain_lowers).
Defined.

(** C7, as stated, fails: in ["preamble\nExecutive Summary"] the second
    line is a header and the first is not, yet the only section of the
    result holds the first line. *)
Lemma preamble_kept_by_fallback :
  split LF (cleanContent preambleThenHeader) = [lit "preamble"; executiveSummary]
  /\ matchedHeader lowerPlain (lit "preamble") = None
  /\ matchedHeader lowerPlain executiveSummary = Some executiveSummary
  /\ parseBusinessPlanSections lowerPlain preambleThenHeader
     = [mkSection fallbackTitle preambleThenHeader]
  /\ includes preambleThenHeader (lit "preamble") = true.
Proof. repeat split; vm_compute; reflexivity. Qed.

(** C7, as the code has it.  When the lines from the first header on
    yield a section, the result is computed from those lines alone: the
    lines before the first header reach no section. *)
Theorem preamble_discarded_when_sections_found
        (toLowerCase : jsstring -> jsstring) (raw : jsstring)
        (pre rest : list jsstring) :
  split LF (cleanContent raw) = pre ++ rest ->
  forallb (fun l => isNone (matchedHeader toLowerCase l)) pre = true ->
  scanLines toLowerCase rest <> [] ->
  parseBusinessPlanSections toLowerCase raw = scanLines toLowerCase rest.
Proof.
  intros E Hpre Hne. unfold parseBusinessPlanSections.
  rewrite E, scanLines_preamble by assumption.
  now destruct (scanLines toLowerCase rest).
Qed.

Lemma preamble_discarded_when_sections_found_witness :
  parseBusinessPlanSections lowerPlain preambleThenSection =
  [mkSection executiveSummary (lit "We build solar kits.")].
Proof.
  refine (preamble_discarded_when_sections_found lowerPlain preambleThenSection
            [lit "intro"] [executiveSummary; lit "We build solar kits."]
            _ _ _).
  - vm_compute. reflexivity.
  - vm_compute. reflexivity.
  - vm_compute. discriminate.
Defined.



Lemma collapseBreaks_In (x : char) :
  forall s k, In x (collapseBreaks k s) -> In x s.
Proof.
  induction s as [|c t IH]; intros k H; [assumption|].
  cbn [collapseBreaks] in H. destruct (isChar LF c) eqn:E.
  - apply isChar_eq in E. subst c.
    destruct (2 <=? k); [right; eauto|].
    destruct H as [H|H]; [now left | right; eauto].
  - destruct H as [H|H]; [now left | right; eauto].
Qed.

(** The global cleanup puts a line feed only where line feeds were. *)
Lemma cleanContent_LF (raw : jsstring) :
  In LF (cleanContent raw) -> In LF raw.
Proof.
  unfold cleanContent. intros H. apply trim_In in H.
  unfold replaceAll at 1 in H. rewrite breaks_collapse in H.
  apply collapseBreaks_In in H. unfold replaceAll in H.
  apply replaceFrom_In in H. destruct H as [[H|[H|[]]]|H]; try discriminate.
  apply replaceFrom_In in H. destruct H as [[]|H].
  apply replaceFrom_In in H. destruct H as [[]|H].
  apply replaceFrom_In in H. now destruct H as [[]|H].
Qed.

Lemma split_single (s : jsstring) : ~ In LF s -> split LF s = [s].
Proof.
  induction s as [|c t IH]; intros H; [reflexivity|]. cbn [split].
  destruct (N.eqb_spec c LF) as [->|_]; [exfalso; apply H; now left|].
  rewrite IH; [reflexivity|]. intros Hin. apply H. now right.
Qed.

(** The loop yields one section for each header whose lines, up to the
    next header, are not blank, and none for the others. *)
Lemma scanLines_emitted (toLowerCase : jsstring -> jsstring)
      (lines : list jsstring) :
  scanLines toLowerCase lines
  = map (fun g => mkSection (fst g)
                            (formatSectionContent (trim (joinLines (snd g)))))
        (filter nonBlank (snd (groups toLowerCase lines))).
Proof.
  rewrite scanLines_groups.
  pose proof (groups_titles_nonEmpty toLowerCase lines) as H.
  induction (snd (groups toLowerCase lines)) as [|g gs IH]; [reflexivity|].
  cbn [flat_map filter]. rewrite IH by (intros; apply H; now right).
  unfold emitGroup, emit, nonBlank. rewrite (H g) by now left.
  now destruct (nonEmpty (trim (joinLines (snd g)))).
Qed.

Lemma filter_none {A : Type} (f : A -> bool) (l : list A) :
  forallb (fun x => negb (f x)) l = true -> filter f l = [].
Proof.
  induction l as [|x l IH]; [reflexivity|]. simpl. intros H.
  apply andb_prop in H. destruct H as [Hx H].
  destruct (f x); [discriminate | now apply IH].
Qed.

(** A cleaned text of one line has at most one header and nothing under
    it. *)
Lemma groups_single (toLowerCase : jsstring -> jsstring) (l : jsstring) :
  forallb (fun g => negb (nonBlank g)) (snd (groups toLowerCase [l])) = true.
Proof.
  cbn [groups]. now destruct (matchedHeader toLowerCase l).
Qed.

(** C10. A matched header gives a section exactly when the lines under
    it are not blank: a header with a blank content is dropped.  So when
    every matched header has a blank content, the result is the fallback
    section holding the cleaned input, header lines included.  This is
    the case of every input of one line, header or not, and in
    particular of each canonical name on its own, whose content is the
    name; for the empty input the fallback content is empty. *)
Theorem blank_section_dropped (toLowerCase : jsstring -> jsstring) :
  (forall lines,
      scanLines toLowerCase lines
      = map (fun g => mkSection (fst g)
                                (formatSectionContent (trim (joinLines (snd g)))))
            (filter nonBlank (snd (groups toLowerCase lines))))
  /\ (forall raw,
         forallb (fun g => negb (nonBlank g))
                 (snd (groups toLowerCase (split LF (cleanContent raw)))) = true ->
         parseBusinessPlanSections toLowerCase raw
         = [mkSection fallbackTitle (formatSectionContent (cleanContent raw))])
  /\ (forall raw,
         ~ In LF raw ->
         parseBusinessPlanSections toLowerCase raw
         = [mkSection fallbackTitle (formatSectionContent (cleanContent raw))])
  /\ (LowersPlain toLowerCase ->
      forall header,
        In header sectionHeaders ->
        matchedHeader toLowerCase header = Some header
        /\ parseBusinessPlanSections toLowerCase header
           = [mkSection fallbackTitle header])
  /\ parseBusinessPlanSections toLowerCase [] = [mkSection fallbackTitle []].
Proof.
  assert (Hb : forall raw,
             forallb (fun g => negb (nonBlank g))
                     (snd (groups toLowerCase (split LF (cleanContent raw))))
             = true ->
             parseBusinessPlanSections toLowerCase raw
             = [mkSection fallbackTitle (formatSectionContent (cleanContent raw))]).
  { intros raw H. unfold parseBusinessPlanSections.
    now rewrite scanLines_emitted, (filter_none _ _ H). }
  assert (Hs : forall raw,
             ~ In LF raw ->
             parseBusinessPlanSections toLowerCase raw
             = [mkSection fallbackTitle (formatSectionContent (cleanContent raw))]).
  { intros raw H. apply Hb. rewrite split_single.
    - apply groups_single.
    - intros Hin. now apply H, cleanContent_LF. }
  split; [apply scanLines_emitted|]. split; [exact Hb|]. split; [exact Hs|].
  split; [|now apply Hs].
  intros L header Hin. unfold sectionHeaders in Hin. simpl in Hin.
  repeat (destruct Hin as [<-|Hin];
          [rewrite (matchedHeader_plain _ L), (parse_plain _ L) by reflexivity;
           split; vm_compute; reflexivity|]).
  destruct Hin.
Qed.

Lemma blank_section_dropped_witness :
  parseBusinessPlanSections lowerPlain (lit "**Executive Summary**")
  = [mkSection fallbackTitle executiveSummary]
  /\ matchedHeader lowerPlain executiveSummary = Some executiveSummary
  /\ parseBusinessPlanSections lowerPlain executiveSummary
     = [mkSection fallbackTitle executiveSummary]
  /\ parseBusinessPlanSections lowerPlain (textOf ["Executive Summary"%string;
                                                    "Market Analysis"%string])
     = [mkSection fallbackTitle
                  (textOf ["Executive Summary"%string; "Market Analysis"%string])].
Proof.
  destruct (blank_section_dropped lowerPlain) as (_ & Hb & Hs & Hh & _).
  split; [|split].
  - apply (Hs (lit "**Executive Summary**")). vm_compute.
    intros H. repeat (destruct H as [H|H]; [discriminate H|]). exact H.
  - apply (Hh lowerPlain_lowers executiveSummary). now left.
  - split.
    + apply (Hh lowerPlain_lowers executiveSummary). now left.
    + apply (Hb (textOf ["Executive Summary"%string; "Market Analysis"%string])).
      vm_compute. reflexivity.
Defined.

(** The scenarios of the specification: two sections in canonical order;
    a bold header followed by dashed bullets. *)
Lemma specification_scenarios (toLowerCase : jsstring -> jsstring) :
  LowersPlain toLowerCase ->
  parseBusinessPlanSections toLowerCase solarKits
  = [mkSection executiveSummary (lit "We build solar kits.");
     mkSection marketAnalysis (lit "Rural demand is high.")]
  /\ parseBusinessPlanSections toLowerCase boldHeaderWithBullets
     = [mkSection executiveSummary
                  (BULLET :: lit " Point one" ++ LF :: BULLET :: lit " Point two")].
Proof.
  intros L. rewrite !(parse_plain _ L) by reflexivity.
  split; vm_compute; reflexivity.
Qed.

(* ================================================================== *)
(** ** Properties of [modifyBusinessPlan] *)

Lemma lit_inj (a b : string) : lit a = lit b -> a = b.
Proof.
  unfold lit. intros H.
  rewrite <- (string_of_list_ascii_of_string a), <- (string_of_list_ascii_of_string b).
  f_equal. revert H.
  generalize (list_ascii_of_string a) (list_ascii_of_string b).
  induction l as [|x l IH]; intros [|y l']; simpl; intros H; try discriminate;
    [reflexivity|].
  injection H as H1 H2. f_equal; [|now apply IH].
  now rewrite <- (ascii_N_embedding x), <- (ascii_N_embedding y), H1.
Qed.

Lemma numberToString_inj (a b : Z) :
  numberToString a = numberToString b -> a = b.
Proof.
  unfold numberToString. intros H. apply lit_inj in H.
  apply DecimalZ.to_int_inj.
  apply (f_equal DecimalString.NilEmpty.int_of_string) in H.
  rewrite !DecimalString.NilEmpty.isi in H. now injection H.
Qed.

Lemma deref_alloc_old (h : heap) (p : GeneratedBusinessPlan) (q : ref) :
  q < length h -> deref (fst (alloc h p)) q = deref h q.
Proof. intros H. unfold deref, alloc. simpl. now rewrite nth_error_app1. Qed.

Lemma deref_alloc_new (h : heap) (p : GeneratedBusinessPlan) :
  deref (fst (alloc h p)) (snd (alloc h p)) = Some p.
Proof.
  unfold deref, alloc. simpl.
  now rewrite nth_error_app2, Nat.sub_diag by lia.
Qed.

(** *** Calls that return *)

Lemma tryCatch_inr {A : Type} (generic : failure) (block : thrown + A) (a : A) :
  tryCatch generic block = inr a <-> block = inr a.
Proof.
  destruct block as [[e|]|a']; simpl; split; intros H;
    try discriminate; congruence.
Qed.

Lemma bind_inr {A B : Type} (m : thrown + A) (k : A -> thrown + B) (b : B) :
  bind m k = inr b <-> exists a, m = inr a /\ k a = inr b.
Proof.
  destruct m as [t|a]; simpl; split.
  - discriminate.
  - intros (a & H & _). discriminate.
  - intros H. now exists a.
  - intros (a' & H & Hk). now injection H as <-.
Qed.

Lemma sectionsOf_inr (toLowerCase : jsstring -> jsstring) (x : value)
      (secs : list BusinessPlanSection) :
  sectionsOf toLowerCase x = inr secs ->
  exists text, x = Some (JString text)
               /\ secs = parseBusinessPlanSections toLowerCase text.
Proof.
  destruct x as [[| | |s| |]|]; simpl; intros H; try discriminate.
  injection H as <-. now exists s.
Qed.

(** A call of [modifyBusinessPlan] that returns has allocated the record
    of the object literal, its sections those of some text. *)
Lemma modify_inr (toLowerCase : jsstring -> jsstring) (host : Host)
      (h h' : heap) (businessPlan r' : ref) :
  modifyBusinessPlan toLowerCase host h businessPlan = inr (h', r') ->
  exists plan text,
    deref h businessPlan = Some plan
    /\ (h', r') = alloc h (Plan.make (numberToString (dateNow host))
                                     (Plan.title plan ++ modifiedSuffix)
                                     (Plan.industry plan) (newDate host)
                                     (parseBusinessPlanSections toLowerCase text)
                                     Plan.complete).
Proof.
  unfold modifyBusinessPlan. intros H.
  destruct (negb (nonEmpty (apiKey host)) || jsEqb (apiKey host) keyPlaceholder);
    [discriminate|].
  apply tryCatch_inr, bind_inr in H. destruct H as (plan & D & H).
  apply bind_inr in H. destruct H as (response & _ & H).
  apply bind_inr in H. destruct H as (u & _ & H).
  apply bind_inr in H. destruct H as (data & _ & H).
  apply bind_inr in H. destruct H as (completion & _ & H).
  apply bind_inr in H. destruct H as (secs & S & H).
  apply sectionsOf_inr in S. destruct S as (text & _ & ->).
  exists plan, text. split; [|congruence].
  destruct (deref h businessPlan); [congruence | discriminate].
Qed.

Lemma generate_inr (toLowerCase : jsstring -> jsstring) (host : Host)
      (h h' : heap) (input : BusinessPlanInput) (r' : ref) :
  generateBusinessPlan toLowerCase host h input = inr (h', r') ->
  exists text,
    (h', r') = alloc h (Plan.make (numberToString (dateNow host))
                                  (Input.businessName input ++ businessPlanSuffix)
                                  (Input.industry input) (newDate host)
                                  (parseBusinessPlanSections toLowerCase text)
                                  Plan.complete).
Proof.
  unfold generateBusinessPlan. intros H.
  destruct (negb (nonEmpty (apiKey host)) || jsEqb (apiKey host) keyPlaceholder);
    [discriminate|].
  apply tryCatch_inr, bind_inr in H. destruct H as (response & _ & H).
  apply bind_inr in H. destruct H as (u & _ & H).
  apply bind_inr in H. destruct H as (data & _ & H).
  apply bind_inr in H. destruct H as (completion & _ & H).
  apply bind_inr in H. destruct H as (secs & S & H).
  apply sectionsOf_inr in S. destruct S as (text & _ & ->).
  exists text. congruence.
Qed.


(** X16. A successful [modifyBusinessPlan] leaves every object of the
    heap as it was, the original plan among them, and returns a fresh
    reference to a new plan whose id is the decimal text of
    [Date.now()], whose title is the original title followed by
    [" (Modified)"], whose [createdAt] is the new [Date], and whose
    industry is the original's. *)
Theorem modify_allocates_new_plan
        (toLowerCase : jsstring -> jsstring) (host : Host)
        (h h' : heap) (businessPlan r' : ref) :
  modifyBusinessPlan toLowerCase host h businessPlan = inr (h', r') ->
  mintedFrom host h h' businessPlan r'.
Proof.
  intros H. apply modify_inr in H. destruct H as (plan & text & D & H).
  unfold mintedFrom.
  set (new := Plan.make _ _ _ _ _ _) in H. injection H as -> ->.
  assert (Hlt : businessPlan < length h).
  { apply nth_error_Some. unfold deref in D. congruence. }
  exists plan, new. repeat split.
  - exact D.
  - intros q Hq. now apply deref_alloc_old.
  - rewrite <- D. now apply deref_alloc_old.
  - lia.
  - unfold deref. now apply nth_error_None.
  - apply deref_alloc_new.
Qed.

Lemma modify_allocates_new_plan_witness :
  modifyBusinessPlan lowerPlain laterMillisecond [acmePlan] 0
  = inr ([acmePlan; modifiedAcme], 1)
  /\ mintedFrom laterMillisecond [acmePlan] [acmePlan; modifiedAcme] 0 1.
Proof.
  split; [vm_compute; reflexivity|].
  apply (modify_allocates_new_plan lowerPlain). vm_compute. reflexivity.
Defined.

(** X17. When a plan returned by [generateBusinessPlan] is given to
    [modifyBusinessPlan], the two plans are different objects, and the
    id of the modified plan equals the id of the original exactly when
    [Date.now()] read the same millisecond in both calls. *)
Theorem modified_id_same_iff_same_reading
        (toLowerCase : jsstring -> jsstring) (host1 host2 : Host)
        (h h1 h2 : heap) (input : BusinessPlanInput) (r1 r2 : ref) :
  generateBusinessPlan toLowerCase host1 h input = inr (h1, r1) ->
  modifyBusinessPlan toLowerCase host2 h1 r1 = inr (h2, r2) ->
  exists original modified,
    deref h2 r1 = Some original /\ deref h2 r2 = Some modified
    /\ r1 <> r2
    /\ Plan.title modified
       = Input.businessName input ++ lit " Business Plan (Modified)"
    /\ (Plan.id modified = Plan.id original <-> dateNow host2 = dateNow host1).
Proof.
  intros G M. apply generate_inr in G. destruct G as (text1 & G).
  apply modify_inr in M. destruct M as (plan & text2 & D & M).
  set (p1 := Plan.make _ _ _ _ _ _) in G. injection G as -> ->.
  pose proof (deref_alloc_new h p1) as D1. cbn [fst snd alloc] in D1.
  rewrite D1 in D. injection D as <-.
  set (p2 := Plan.make _ _ _ _ _ _) in M. injection M as -> ->.
  exists p1, p2. repeat split.
  - pose proof (deref_alloc_old (h ++ [p1]) p2 (length h)) as E.
    etransitivity; [apply E | exact D1].
    rewrite length_app. simpl. lia.
  - apply (deref_alloc_new (h ++ [p1]) p2).
  - rewrite length_app. simpl. lia.
  - change (lit " Business Plan (Modified)")
      with (businessPlanSuffix ++ modifiedSuffix).
    simpl. now rewrite <- app_assoc.
  - simpl. intros E. now apply numberToString_inj in E.
  - simpl. now intros ->.
Qed.

Lemma modified_id_same_iff_same_reading_witness :
  exists original modified,
    deref [acmeEarlier; modifiedAcme] 0 = Some original
    /\ deref [acmeEarlier; modifiedAcme] 1 = Some modified
    /\ 0 <> 1
    /\ Plan.title modified
       = Input.businessName acmeInput ++ lit " Business Plan (Modified)"
    /\ (Plan.id modified = Plan.id original <->
        dateNow laterMillisecond = dateNow sameMillisecond).
Proof.
  apply (modified_id_same_iff_same_reading lowerPlain sameMillisecond
           laterMillisecond [] [acmeEarlier] [acmeEarlier; modifiedAcme]
           acmeInput 0 1); vm_compute; reflexivity.
Defined.

(* ================================================================== *)
(** ** Further properties of the sectionizer *)

(** Every section the loop yields is a group with a non-blank body: its
    title is the group's header and its content the formatted body. *)
Lemma scan_sources (toLowerCase : jsstring -> jsstring) (ls : list jsstring) :
  Forall (fun sec =>
            exists g, In g (snd (groups toLowerCase ls))
                      /\ title sec = fst g
                      /\ content sec
                         = formatSectionContent (trim (joinLines (snd g)))
                      /\ nonEmpty (trim (joinLines (snd g))) = true)
         (scanLines toLowerCase ls).
Proof.
  rewrite scanLines_groups. apply Forall_flat_map_intro. intros g Hg.
  unfold emitGroup, emit.
  destruct (nonEmpty (fst g)); simpl; [|constructor].
  destruct (nonEmpty (trim (joinLines (snd g)))) eqn:E; repeat constructor.
  exists g. simpl. auto.
Qed.

Lemma groups_titles_canonical (toLowerCase : jsstring -> jsstring) :
  forall ls g, In g (snd (groups toLowerCase ls)) -> In (fst g) sectionHeaders.
Proof.
  induction ls as [|l r IH]; [intros g []|].
  cbn [groups]. destruct (groups toLowerCase r) as [pre gs].
  destruct (matchedHeader toLowerCase l) as [h|] eqn:E; [|exact IH].
  intros g [<-|Hg]; [|now apply IH].
  now apply matchedHeader_In with toLowerCase l.
Qed.

(** The result is the loop's sections or, when there are none, the
    fallback section. *)
Lemma parse_cases (toLowerCase : jsstring -> jsstring) (raw : jsstring) :
  (scanLines toLowerCase (split LF (cleanContent raw)) <> []
   /\ parseBusinessPlanSections toLowerCase raw
      = scanLines toLowerCase (split LF (cleanContent raw)))
  \/ (scanLines toLowerCase (split LF (cleanContent raw)) = []
      /\ parseBusinessPlanSections toLowerCase raw
         = [mkSection fallbackTitle (formatSectionContent (cleanContent raw))]).
Proof.
  unfold parseBusinessPlanSections.
  destruct (scanLines toLowerCase (split LF (cleanContent raw)));
    [right | left]; split; auto. discriminate.
Qed.

(** X1. Every title of the result is one of the ten canonical names,
    unless the result is the single fallback section; and the fallback
    title is not a canonical name. *)
Theorem titles_canonical_or_fallback
        (toLowerCase : jsstring -> jsstring) (raw : jsstring) :
  (forallb (fun sec => existsb (jsEqb (title sec)) sectionHeaders)
           (parseBusinessPlanSections toLowerCase raw) = true
   \/ parseBusinessPlanSections toLowerCase raw
      = [mkSection fallbackTitle (formatSectionContent (cleanContent raw))])
  /\ existsb (jsEqb fallbackTitle) sectionHeaders = false.
Proof.
  split; [|reflexivity].
  destruct (parse_cases toLowerCase raw) as [[_ ->]|[_ ->]]; [left | now right].
  apply forallb_forall. intros sec Hin.
  pose proof (scan_sources toLowerCase (split LF (cleanContent raw))) as H.
  rewrite Forall_forall in H. destruct (H _ Hin) as (g & Hg & -> & _).
  apply existsb_exists. exists (fst g). split; [|now apply jsEqb_eq].
  now apply groups_titles_canonical with toLowerCase (split LF (cleanContent raw)).
Qed.

(* ------------------------------------------------------------------ *)
(** *** Text that is not blank *)

Lemma solid_app (a b : jsstring) : solid (a ++ b) = solid a || solid b.
Proof. apply existsb_app. Qed.

Lemma blank_not_solid (s : jsstring) :
  forallb isSpace s = true -> solid s = false.
Proof.
  induction s as [|c t IH]; [reflexivity|]. simpl. intros H.
  apply andb_prop in H. destruct H as [-> H]. now apply IH.
Qed.

Lemma not_solid_blank (s : jsstring) :
  solid s = false -> forallb isSpace s = true.
Proof.
  induction s as [|c t IH]; [reflexivity|]. simpl. intros H.
  apply orb_false_elim in H. destruct H as [Hc H].
  rewrite (IH H). now destruct (isSpace c).
Qed.

Lemma solid_nonEmpty (s : jsstring) : solid s = true -> nonEmpty s = true.
Proof. now destruct s. Qed.

(** [trim] cuts whitespace off both ends. *)
Lemma trim_middle_blank (s : jsstring) :
  exists a b, s = a ++ trim s ++ b
              /\ forallb isSpace a = true /\ forallb isSpace b = true.
Proof.
  destruct (dropWhile_split s) as (a & Ea & Ha).
  destruct (dropWhile_split (rev (dropWhile isSpace s))) as (b & Eb & Hb).
  exists a, (rev b). unfold trim. repeat split; [|assumption|].
  - rewrite <- rev_app_distr, <- Eb, rev_involutive. exact Ea.
  - rewrite forallb_forall in *. intros x Hx. apply Hb. now apply in_rev.
Qed.

Lemma trim_solid (s : jsstring) : solid (trim s) = solid s.
Proof.
  destruct (trim_middle_blank s) as (a & b & E & Ha & Hb).
  rewrite E at 2. rewrite !solid_app.
  now rewrite (blank_not_solid a Ha), (blank_not_solid b Hb), orb_false_r.
Qed.

(** A trimmed text is blank only when it is empty. *)
Lemma trim_nonEmpty_solid (s : jsstring) :
  nonEmpty (trim s) = true -> solid (trim s) = true.
Proof.
  intros H. pose proof (trim_last s) as Hl.
  destruct (trim s) as [|c t] eqn:E; [discriminate|].
  destruct (rev (c :: t)) as [|x r] eqn:Er.
  - apply (f_equal (@length _)) in Er. rewrite length_rev in Er. discriminate.
  - simpl in Hl. apply existsb_exists. exists x. split; [|now rewrite Hl].
    apply in_rev. rewrite Er. now left.
Qed.

(** A replacement keeps a text from becoming blank when every match is
    either blank itself or replaced by a text that is not. *)
Lemma replace_solid (re : regex) (repl : jsstring) :
  (forall prev s, exec re prev s <> Some 0) ->
  (forall prev s n, exec re prev s = Some n ->
                    solid repl = true \/ solid (firstn n s) = false) ->
  forall s prev, solid s = true -> solid (replaceFrom re repl 0 prev s) = true.
Proof.
  intros Hpos Hm. induction s as [s IH] using length_ind. intros prev Hs.
  destruct (exec re prev s) as [[|n]|] eqn:E.
  - now apply Hpos in E.
  - pose proof (exec_le _ _ _ _ E) as Hle.
    rewrite (replaceFrom_match _ repl _ _ _ E), solid_app.
    destruct (Hm _ _ _ E) as [->|Hf]; [reflexivity|].
    rewrite <- (firstn_skipn (S n) s), solid_app, Hf in Hs. simpl in Hs.
    rewrite IH; [apply orb_true_r | rewrite length_skipn; lia | assumption].
  - destruct s as [|c t]; [discriminate|].
    rewrite replaceFrom_nomatch by assumption. simpl in *.
    destruct (isSpace c); simpl in *; [|reflexivity].
    apply IH; [lia | assumption].
Qed.

Lemma countWhile_firstn_cap (p : char -> bool) :
  forall s cap, forallb p (firstn (countWhile p cap s) s) = true.
Proof.
  induction s as [|c t IH]; intros cap; [reflexivity|]. cbn [countWhile].
  destruct cap as [[|k]|]; try reflexivity;
    (destruct (p c) eqn:E; [|reflexivity]); simpl; now rewrite E, IH.
Qed.

Lemma format_solid (y : jsstring) :
  noStar y = true -> solid y = true -> solid (formatSectionContent y) = true.
Proof.
  intros Hs H. unfold formatSectionContent.
  rewrite (fixedBy_replaceAll reBold) by now apply star_fixed.
  rewrite (fixedBy_replaceAll reStar) by now apply star_fixed.
  rewrite trim_solid. unfold replaceAll.
  apply replace_solid.
  { intros prev t E. rewrite exec_reIndent in E.
    destruct (atLineStart true prev); [|discriminate].
    destruct (countWhile isSpace None t <? 1) eqn:R; [discriminate|].
    apply Nat.ltb_ge in R. injection E as E. lia. }
  { intros prev t n E. right. rewrite exec_reIndent in E.
    destruct (atLineStart true prev); [|discriminate].
    destruct (countWhile isSpace None t <? 1); [discriminate|].
    injection E as <-. apply blank_not_solid, countWhile_firstn. }
  apply replace_solid.
  { intros prev t E. rewrite exec_reBreaks in E.
    destruct (countWhile (isChar LF) None t <? 3) eqn:R; [discriminate|].
    apply Nat.ltb_ge in R. injection E as E. lia. }
  { intros prev t n E. right. rewrite exec_reBreaks in E.
    destruct (countWhile (isChar LF) None t <? 3); [discriminate|].
    injection E as <-. apply blank_not_solid.
    pose proof (countWhile_firstn (isChar LF) t) as F.
    rewrite forallb_forall in *. intros x Hx. specialize (F x Hx).
    apply isChar_eq in F. now subst. }
  apply replace_solid; [| now left | assumption].
  intros prev t E. rewrite exec_reBullet in E.
  destruct (atLineStart true prev); [|discriminate].
  unfold bulletLen in E. destruct (skipn _ t) as [|x [|z r]]; try discriminate.
  destruct (isBulletMark x && isSpace z); [|discriminate].
  injection E as E. lia.
Qed.

(** X2. A section with an empty content occurs only when the cleaned
    text is empty, and the result is then the fallback section alone:
    otherwise every content of the result is non-empty. *)
Theorem empty_content_only_for_empty_text
        (toLowerCase : jsstring -> jsstring) (raw : jsstring) :
  forallb (fun sec => nonEmpty (content sec))
          (parseBusinessPlanSections toLowerCase raw) = true
  \/ (cleanContent raw = []
      /\ parseBusinessPlanSections toLowerCase raw
         = [mkSection fallbackTitle []]).
Proof.
  destruct (parse_cases toLowerCase raw) as [[_ ->]|[_ ->]].
  - left. apply forallb_forall. intros sec Hin.
    pose proof (scan_sources toLowerCase (split LF (cleanContent raw))) as H.
    rewrite Forall_forall in H. destruct (H _ Hin) as (g & Hg & _ & -> & Hne).
    apply solid_nonEmpty, format_solid; [|now apply trim_nonEmpty_solid].
    apply noStar_In. intros Hx.
    apply (body_chars toLowerCase (cleanContent raw) g STAR Hg) in Hx.
    destruct Hx as [Hx|Hx]; [discriminate|].
    now apply (noStar_not_In _ (cleanContent_noStar raw)).
  - destruct (cleanContent raw) as [|c t] eqn:E; [now right|]. left.
    rewrite <- E. simpl. rewrite andb_true_r.
    apply solid_nonEmpty, format_solid; [apply cleanContent_noStar|].
    unfold cleanContent in *. apply trim_nonEmpty_solid. now rewrite E.
Qed.

(* ------------------------------------------------------------------ *)
(** *** Blank input *)

Lemma dropWhile_blank (s : jsstring) :
  forallb isSpace s = true -> dropWhile isSpace s = [].
Proof.
  induction s as [|c t IH]; [reflexivity|]. simpl. intros H.
  apply andb_prop in H. destruct H as [-> H]. now apply IH.
Qed.

Lemma trim_blank (s : jsstring) : forallb isSpace s = true -> trim s = [].
Proof. intros H. unfold trim. now rewrite (dropWhile_blank s H). Qed.

Lemma replaceAll_blank (re : regex) (repl s : jsstring) :
  forallb isSpace repl = true -> forallb isSpace s = true ->
  forallb isSpace (replaceAll re repl s) = true.
Proof.
  rewrite !forallb_forall. intros Hr Hs x Hx.
  apply replaceFrom_In in Hx. destruct Hx; auto.
Qed.

Lemma blank_not_bullet (s : jsstring) :
  forallb isSpace s = true -> isBullet s = false.
Proof.
  induction s as [|c t IH]; [reflexivity|]. simpl. intros H.
  apply andb_prop in H. destruct H as [Hc H].
  rewrite isBullet_space by assumption. now apply IH.
Qed.

Lemma blank_bullet_fixed :
  forall s prev, forallb isSpace s = true -> fixedBy reBullet bulletPrefix prev s.
Proof.
  induction s as [|c t IH]; intros prev H; cbn [fixedBy]; split; try exact I.
  - now rewrite isBullet_exec.
  - rewrite isBullet_exec; [exact I | now apply blank_not_bullet].
  - apply IH. simpl in H. apply andb_prop in H. tauto.
Qed.

Lemma blank_cleanContent (raw : jsstring) :
  forallb isSpace raw = true -> cleanContent raw = [].
Proof.
  intros H. unfold cleanContent. apply trim_blank.
  apply replaceAll_blank; [reflexivity|].
  assert (H3 : forallb isSpace
                 (replaceAll reHeading []
                    (replaceAll reStar [] (replaceAll reBold [] raw))) = true)
    by (repeat apply replaceAll_blank; auto).
  rewrite fixedBy_replaceAll; [assumption | now apply blank_bullet_fixed].
Qed.

(** X3. An input of whitespace alone (the empty input too) yields the
    fallback section with an empty content, whatever the host's
    lower-casing. *)
Theorem blank_input_gives_empty_fallback
        (toLowerCase : jsstring -> jsstring) (raw : jsstring) :
  forallb isSpace raw = true ->
  parseBusinessPlanSections toLowerCase raw = [mkSection fallbackTitle []].
Proof.
  intros H. unfold parseBusinessPlanSections.
  rewrite (blank_cleanContent raw H).
  unfold scanLines. cbn [split fold_left]. unfold scanLine.
  destruct (matchedHeader toLowerCase []) as [h|].
  - unfold pushCurrent. cbn [currentSection currentContent sections initScan].
    now rewrite andb_false_r.
  - reflexivity.
Qed.

Lemma blank_input_gives_empty_fallback_witness :
  parseBusinessPlanSections lowerPlain [SPACE; LF; 9%N; LF]
  = [mkSection fallbackTitle []].
Proof.
  exact (blank_input_gives_empty_fallback lowerPlain [SPACE; LF; 9%N; LF] eq_refl).
Defined.

(* ------------------------------------------------------------------ *)
(** *** Where the code units come from *)

Lemma format_In (x : char) (y : jsstring) :
  In x (formatSectionContent y) -> In x y \/ In x inserted.
Proof.
  unfold formatSectionContent, replaceAll, inserted. intros H.
  apply trim_In in H.
  apply replaceFrom_In in H. destruct H as [[]|H].
  apply replaceFrom_In in H. destruct H as [[H|[H|[]]]|H];
    [right; simpl; auto | right; simpl; auto |].
  apply replaceFrom_In in H. destruct H as [[H|[H|[]]]|H];
    [right; simpl; auto | right; simpl; auto |].
  apply replaceFrom_In in H. destruct H as [[]|H].
  apply replaceFrom_In in H. destruct H as [[]|H]. now left.
Qed.

Lemma cleanContent_In (x : char) (raw : jsstring) :
  In x (cleanContent raw) -> In x raw \/ In x inserted.
Proof.
  unfold cleanContent, replaceAll, inserted. intros H.
  apply trim_In in H.
  apply replaceFrom_In in H. destruct H as [[H|[H|[]]]|H];
    [right; simpl; auto | right; simpl; auto |].
  apply replaceFrom_In in H. destruct H as [[H|[H|[]]]|H];
    [right; simpl; auto | right; simpl; auto |].
  apply replaceFrom_In in H. destruct H as [[]|H].
  apply replaceFrom_In in H. destruct H as [[]|H].
  apply replaceFrom_In in H. destruct H as [[]|H]. now left.
Qed.

(** X4. The sectionizer invents no text: every code unit of every
    content of the result occurs in the input or is one of the three
    units the passes insert (the bullet, the space, the line feed). *)
Theorem contents_from_input
        (toLowerCase : jsstring -> jsstring) (raw : jsstring) :
  forallb (fun sec =>
             forallb (fun x => existsb (N.eqb x) (raw ++ inserted))
                     (content sec))
          (parseBusinessPlanSections toLowerCase raw) = true.
Proof.
  apply forallb_forall. intros sec Hin. apply forallb_forall. intros x Hx.
  apply existsb_exists. exists x. split; [|apply N.eqb_refl].
  apply in_or_app.
  pose proof (parse_sources toLowerCase raw) as H.
  rewrite Forall_forall in H. destruct (H _ Hin) as (y & E & Hy).
  rewrite E in Hx. apply format_In in Hx. destruct Hx as [Hx|Hx]; [|now right].
  assert (Hc : In x (cleanContent raw) \/ In x inserted).
  { destruct Hy as [->|(g & Hg & ->)]; [now left|].
    apply (body_chars toLowerCase (cleanContent raw) g x Hg) in Hx.
    destruct Hx as [->|Hx]; [right; simpl; auto | now left]. }
  destruct Hc as [Hc|Hc]; [|now right]. now apply cleanContent_In.
Qed.

(* ------------------------------------------------------------------ *)
(** *** Lengths *)

(** A replacement whose text is no longer than any match does not
    lengthen the text. *)
Lemma replace_length (re : regex) (repl : jsstring) :
  (forall prev s n, exec re prev s = Some n -> length repl <= n) ->
  forall s prev, length (replaceFrom re repl 0 prev s) <= length s.
Proof.
  intros Hm. induction s as [s IH] using length_ind. intros prev.
  destruct s as [|c t].
  - cbn [replaceFrom]. destruct (exec re prev []) as [n|] eqn:E; [|simpl; lia].
    pose proof (exec_le _ _ _ _ E). apply Hm in E. simpl in *. lia.
  - destruct (exec re prev (c :: t)) as [[|n]|] eqn:E.
    + cbn [replaceFrom]. rewrite E. apply Hm in E.
      rewrite length_app. simpl. specialize (IH t). simpl in IH.
      specialize (IH (Nat.lt_succ_diag_r _) (Some c)). lia.
    + pose proof (exec_le _ _ _ _ E) as Hle.
      rewrite (replaceFrom_match _ repl _ _ _ E), length_app.
      specialize (IH (skipn (S n) (c :: t))).
      rewrite length_skipn in IH. apply Hm in E.
      specialize (IH ltac:(simpl in *; lia) (prevAt prev (c :: t) (S n))).
      simpl in *. lia.
    + rewrite replaceFrom_nomatch by assumption. simpl.
      specialize (IH t (Nat.lt_succ_diag_r _) (Some c)). lia.
Qed.

Lemma trim_length (s : jsstring) : length (trim s) <= length s.
Proof.
  destruct (trim_middle s) as (a & b & E).
  apply (f_equal (@length _)) in E. rewrite !length_app in E. lia.
Qed.

Lemma empty_replace_length (re : regex) (s : jsstring) :
  length (replaceAll re [] s) <= length s.
Proof. apply replace_length. intros. simpl. lia. Qed.

Lemma bullet_length (s : jsstring) :
  length (replaceAll reBullet bulletPrefix s) <= length s.
Proof.
  apply replace_length. intros prev t n E. rewrite exec_reBullet in E.
  destruct (atLineStart true prev); [|discriminate].
  unfold bulletLen in E. destruct (skipn _ t) as [|x [|z r]]; try discriminate.
  destruct (isBulletMark x && isSpace z); [|discriminate].
  injection E as <-. simpl. lia.
Qed.

Lemma breaks_length (s : jsstring) :
  length (replaceAll reBreaks twoBreaks s) <= length s.
Proof.
  apply replace_length. intros prev t n E. rewrite exec_reBreaks in E.
  destruct (countWhile (isChar LF) None t <? 3) eqn:R; [discriminate|].
  apply Nat.ltb_ge in R. injection E as <-. simpl. lia.
Qed.

Lemma format_length (x : jsstring) :
  length (formatSectionContent x) <= length x.
Proof.
  unfold formatSectionContent.
  etransitivity; [apply trim_length|].
  etransitivity; [apply empty_replace_length|].
  etransitivity; [apply breaks_length|].
  etransitivity; [apply bullet_length|].
  etransitivity; apply empty_replace_length.
Qed.

Lemma cleanContent_length (x : jsstring) :
  length (cleanContent x) <= length x.
Proof.
  unfold cleanContent.
  etransitivity; [apply trim_length|].
  etransitivity; [apply breaks_length|].
  etransitivity; [apply bullet_length|].
  etransitivity; [apply empty_replace_length|].
  etransitivity; apply empty_replace_length.
Qed.

(** X5. Neither pass lengthens a text, and no content of the result is
    longer than the input. *)
Theorem cleaning_never_lengthens
        (toLowerCase : jsstring -> jsstring) (raw : jsstring) :
  length (formatSectionContent raw) <= length raw
  /\ length (cleanContent raw) <= length raw
  /\ forallb (fun sec => length (content sec) <=? length raw)
             (parseBusinessPlanSections toLowerCase raw) = true.
Proof.
  split; [apply format_length|]. split; [apply cleanContent_length|].
  apply forallb_forall. intros sec Hin. apply Nat.leb_le.
  pose proof (parse_sources toLowerCase raw) as H.
  rewrite Forall_forall in H. destruct (H _ Hin) as (y & -> & Hy).
  etransitivity; [apply format_length|].
  etransitivity; [|apply cleanContent_length].
  destruct Hy as [->|(g & Hg & ->)]; [reflexivity|].
  apply body_in_text in Hg. destruct Hg as [->|(a & b & E)]; [simpl; lia|].
  apply (f_equal (@length _)) in E. rewrite !length_app in E. lia.
Qed.

(* ------------------------------------------------------------------ *)
(** *** What the global cleanup establishes *)










(* ================================================================== *)
(** ** Export *)

Lemma exec_reSpaces (prev : option char) (s : jsstring) :
  exec reSpaces prev s =
  if countWhile isSpace None s <? 1 then None
  else Some (countWhile isSpace None s).
Proof. apply exec_last. Qed.

Lemma spaceless_cons (c : char) (t : jsstring) :
  spaceless (c :: t) = negb (isSpace c) && spaceless t.
Proof. reflexivity. Qed.

Lemma spaces_replaced :
  forall s prev, spaceless (replaceFrom reSpaces [UNDERSCORE] 0 prev s) = true.
Proof.
  induction s as [s IH] using length_ind. intros prev.
  pose proof (exec_reSpaces prev s) as E.
  destruct (countWhile isSpace None s <? 1) eqn:R.
  - apply Nat.ltb_lt in R. destruct s as [|c t]; [now rewrite replaceFrom_nil|].
    rewrite replaceFrom_nomatch by assumption. simpl.
    rewrite (IH t) by (simpl; lia). cbn [countWhile option_map] in R.
    destruct (isSpace c); [lia | reflexivity].
  - apply Nat.ltb_ge in R.
    destruct (countWhile isSpace None s) as [|n] eqn:Hn; [lia|].
    pose proof (exec_le _ _ _ _ E) as Hle.
    rewrite (replaceFrom_match _ [UNDERSCORE] _ _ _ E).
    cbn [app]. rewrite spaceless_cons.
    rewrite IH by (rewrite length_skipn; lia). reflexivity.
Qed.

Lemma spaceless_fixed :
  forall s prev, spaceless s = true -> fixedBy reSpaces [UNDERSCORE] prev s.
Proof.
  induction s as [|c t IH]; intros prev H; cbn [fixedBy]; split; try exact I.
  - rewrite exec_reSpaces. cbn [countWhile option_map]. simpl in H.
    destruct (isSpace c); [discriminate | exact I].
  - apply IH. simpl in H. apply andb_prop in H. tauto.
Qed.

Lemma spaceless_app (a b : jsstring) :
  spaceless (a ++ b) = spaceless a && spaceless b.
Proof. apply forallb_app. Qed.

Lemma underscored_run :
  forall t, underscored true t
            = underscored false (skipn (countWhile isSpace None t) t).
Proof.
  induction t as [|c t IH]; [reflexivity|].
  cbn [underscored countWhile option_map].
  destruct (isSpace c) eqn:E; cbn [skipn underscored]; [exact IH|].
  now rewrite E.
Qed.

(** [/\s+/g] to ["_"] is the scanner. *)
Lemma spaces_underscored :
  forall s prev, replaceFrom reSpaces [UNDERSCORE] 0 prev s = underscored false s.
Proof.
  induction s as [s IH] using length_ind. intros prev.
  pose proof (exec_reSpaces prev s) as E.
  destruct (countWhile isSpace None s <? 1) eqn:R.
  - apply Nat.ltb_lt in R. destruct s as [|c t]; [now rewrite replaceFrom_nil|].
    rewrite replaceFrom_nomatch by assumption.
    rewrite (IH t) by (simpl; lia). cbn [countWhile option_map] in R.
    cbn [underscored]. destruct (isSpace c); [lia | reflexivity].
  - apply Nat.ltb_ge in R.
    destruct (countWhile isSpace None s) as [|n] eqn:Hn; [lia|].
    pose proof (exec_le _ _ _ _ E) as Hle.
    rewrite (replaceFrom_match _ [UNDERSCORE] _ _ _ E).
    rewrite IH by (rewrite length_skipn; lia).
    destruct s as [|c t]; [discriminate|].
    cbn [countWhile option_map] in Hn.
    cbn [underscored]. destruct (isSpace c); [|discriminate].
    injection Hn as <-. cbn [app skipn]. f_equal. symmetry.
    apply underscored_run.
Qed.

(** X7. The file name of a download is the plan's title with every run
    of whitespace replaced by one underscore, followed by [".txt"] or
    [".doc"]: it has no whitespace, its stem is no longer than the title
    and is the title itself when the title has no whitespace.  The text
    and the Word download carry the same body. *)
Theorem download_name_has_no_whitespace
        (toLocaleDateString : Z -> jsstring) (plan : GeneratedBusinessPlan) :
  let pdf := exportToPDF toLocaleDateString plan in
  let doc := exportToWord toLocaleDateString plan in
  fileName pdf = underscored false (Plan.title plan) ++ lit ".txt"
  /\ fileName doc = underscored false (Plan.title plan) ++ lit ".doc"
  /\ spaceless (fileName pdf) = true
  /\ spaceless (fileName doc) = true
  /\ fileBody pdf = fileBody doc
  /\ length (underscored false (Plan.title plan)) <= length (Plan.title plan)
  /\ (spaceless (Plan.title plan) = true ->
      underscored false (Plan.title plan) = Plan.title plan).
Proof.
  cbv zeta. unfold exportToPDF, exportToWord. cbn [fileName fileBody].
  rewrite !spaceless_app. unfold replaceAll.
  rewrite <- (spaces_underscored (Plan.title plan) None), spaces_replaced.
  repeat split.
  - apply replace_length. intros prev t n E. rewrite exec_reSpaces in E.
    destruct (countWhile isSpace None t <? 1) eqn:R; [discriminate|].
    apply Nat.ltb_ge in R. injection E as <-. simpl. lia.
  - intros H. now apply fixedBy_replaceFrom with (skip := 0), spaceless_fixed.
Qed.

Lemma download_name_has_no_whitespace_witness :
  fileName (exportToPDF (fun _ => lit "11/14/2023") acmePlan)
  = lit "Acme_Business_Plan.txt"
  /\ underscored false (lit "Acme  Business" ++ [9%N; LF] ++ lit "Plan ")
     = lit "Acme_Business_Plan_".
Proof.
  split; [|reflexivity].
  exact (proj1 (download_name_has_no_whitespace (fun _ => lit "11/14/2023")
                                                acmePlan)).
Defined.

(* ================================================================== *)
(** ** Properties of [generateBusinessPlan] and of both methods *)

Lemma parse_wellFormed (toLowerCase : jsstring -> jsstring) (raw : jsstring) :
  1 <= length (parseBusinessPlanSections toLowerCase raw)
  /\ forallb (fun sec => cleanButHeadings (content sec))
             (parseBusinessPlanSections toLowerCase raw) = true.
Proof.
  split.
  - destruct (parse_cases toLowerCase raw) as [[Hne ->]|[_ ->]]; [|simpl; lia].
    destruct (scanLines toLowerCase (split LF (cleanContent raw)));
      [congruence | simpl; lia].
  - apply forallb_forall. intros sec Hin.
    pose proof (parse_sources toLowerCase raw) as H.
    rewrite Forall_forall in H. destruct (H _ Hin) as (z & -> & _).
    apply tidy_clean, format_tidy.
Qed.

(** X8. A plan returned by [generateBusinessPlan] is a new object: the
    heap is extended by it and nothing else changes.  Its title is the
    business name followed by [" Business Plan"], its industry is the
    input's, its status is [complete], and it has at least one section,
    each with a clean content. *)
Theorem generate_returns_wellformed_plan
        (toLowerCase : jsstring -> jsstring) (host : Host)
        (h h' : heap) (input : BusinessPlanInput) (r' : ref) :
  generateBusinessPlan toLowerCase host h input = inr (h', r') ->
  exists plan,
    h' = h ++ [plan] /\ r' = length h
    /\ deref h' r' = Some plan
    /\ (forall q, q < length h -> deref h' q = deref h q)
    /\ Plan.title plan = Input.businessName input ++ lit " Business Plan"
    /\ Plan.industry plan = Input.industry input
    /\ Plan.id plan = numberToString (dateNow host)
    /\ Plan.createdAt plan = newDate host
    /\ wellFormedPlan plan.
Proof.
  intros H. apply generate_inr in H. destruct H as (text & H).
  set (new := Plan.make _ _ _ _ _ _) in H. injection H as -> ->.
  exists new. repeat split.
  - apply deref_alloc_new.
  - intros q Hq. now apply deref_alloc_old.
  - apply parse_wellFormed.
  - apply parse_wellFormed.
Qed.

Lemma generate_returns_wellformed_plan_witness :
  generateBusinessPlan lowerPlain laterMillisecond [acmePlan] acmeInput
  = inr ([acmePlan; acmeGenerated], 1)
  /\ exists plan,
      [acmePlan; acmeGenerated] = [acmePlan] ++ [plan] /\ 1 = length [acmePlan]
      /\ deref [acmePlan; acmeGenerated] 1 = Some plan
      /\ (forall q, q < length [acmePlan] ->
                    deref [acmePlan; acmeGenerated] q = deref [acmePlan] q)
      /\ Plan.title plan = Input.businessName acmeInput ++ lit " Business Plan"
      /\ Plan.industry plan = Input.industry acmeInput
      /\ Plan.id plan = numberToString (dateNow laterMillisecond)
      /\ Plan.createdAt plan = newDate laterMillisecond
      /\ wellFormedPlan plan.
Proof.
  split; [vm_compute; reflexivity|].
  apply (generate_returns_wellformed_plan lowerPlain laterMillisecond
           [acmePlan] [acmePlan; acmeGenerated] acmeInput 1).
  vm_compute. reflexivity.
Defined.

(** X9. The plan returned by [modifyBusinessPlan] has status [complete]
    and at least one section, each with a clean content, whatever the
    status and the sections of the original. *)
Theorem modify_returns_wellformed_plan
        (toLowerCase : jsstring -> jsstring) (host : Host)
        (h h' : heap) (businessPlan r' : ref) :
  modifyBusinessPlan toLowerCase host h businessPlan = inr (h', r') ->
  exists plan, h' = h ++ [plan] /\ r' = length h /\ wellFormedPlan plan.
Proof.
  intros H. apply modify_inr in H. destruct H as (plan & text & _ & H).
  set (new := Plan.make _ _ _ _ _ _) in H. injection H as -> ->.
  exists new. repeat split; apply parse_wellFormed.
Qed.

Lemma modify_returns_wellformed_plan_witness :
  exists plan,
    [acmePlan; modifiedAcme] = [acmePlan] ++ [plan] /\ 1 = length [acmePlan]
    /\ wellFormedPlan plan.
Proof.
  apply (modify_returns_wellformed_plan lowerPlain laterMillisecond
           [acmePlan] [acmePlan; modifiedAcme] 0 1).
  vm_compute. reflexivity.
Defined.

Lemma keyMissing_eq (host : Host) :
  keyMissing host
  = (negb (nonEmpty (apiKey host)) || jsEqb (apiKey host) keyPlaceholder).
Proof. reflexivity. Qed.

Lemma null_or_not (x : json) : x = JNull \/ x <> JNull.
Proof. destruct x; [now left | right; discriminate ..]. Qed.

Lemma get_getOptional (name : jsstring) (x : json) :
  x <> JNull -> get name (Some x) = inr (getOptional name (Some x)).
Proof. destruct x; simpl; intros H; try reflexivity; congruence. Qed.

(** Reading the completion throws exactly when the body has no choices. *)
Lemma completionOf_cases (data : json) :
  (hasChoices data = true /\ completionOf data = inr (completionValue data))
  \/ (hasChoices data = false /\ completionOf data = throw TypeError).
Proof.
  unfold completionValue, completionOf, hasChoices.
  destruct data as [| | | | |members]; simpl; auto.
  destruct (lookup (lit "choices") members) as [[| | | | |]|]; simpl; auto.
Qed.

Lemma otherStatus_cases (response : Response) :
  httpStatus response = 401%N \/ httpStatus response = 402%N
  \/ httpStatus response = 429%N \/ otherStatus response = true.
Proof.
  unfold otherStatus.
  destruct (N.eqb_spec (httpStatus response) 401); [auto|].
  destruct (N.eqb_spec (httpStatus response) 402); [auto|].
  destruct (N.eqb_spec (httpStatus response) 429); auto.
Qed.

Ltac same_host :=
  repeat match goal with
         | F : fetched ?host = _, F' : fetched ?host = _ |- _ =>
             rewrite F in F'; inversion F'; subst; clear F'
         | F : body ?r = _, F' : body ?r = _ |- _ =>
             rewrite F in F'; inversion F'; subst; clear F'
         end.

Ltac status_clash :=
  match goal with
  | E : httpStatus ?r = _, O : otherStatus ?r = true |- _ =>
      unfold otherStatus in O; rewrite E in O; discriminate O
  | E : httpStatus ?r = _, E' : httpStatus ?r = _ |- _ =>
      rewrite E in E'; discriminate E'
  end.

Lemma otherStatus_tests (response : Response) :
  otherStatus response = true ->
  (httpStatus response =? 401)%N = false
  /\ (httpStatus response =? 402)%N = false
  /\ (httpStatus response =? 429)%N = false.
Proof.
  unfold otherStatus. intros H.
  apply andb_prop in H. destruct H as [H H3].
  apply andb_prop in H. destruct H as [H1 H2].
  now rewrite negb_true_iff in *.
Qed.

(** The status check passes for a response that is [ok]; for any other
    it throws the one error the table gives. *)
Lemma checkStatus_cases (generic : failure) (host : Host) (response : Response) :
  fetched host = Fulfilled response ->
  (ok response = true /\ checkStatus response = inr tt)
  \/ (ok response = false
      /\ exists e, checkStatus response = throw e
                   /\ exchangeFails generic host e
                   /\ forall e', exchangeFails generic host e' -> e' = e).
Proof.
  intros F. unfold checkStatus. destruct (ok response) eqn:Hok; [now left|].
  right. split; [reflexivity|]. cbn [negb].
  destruct (otherStatus_cases response) as [E|[E|[E|E]]].
  - rewrite E. cbn. eexists. split; [reflexivity|]. split.
    + eapply status_401; eassumption.
    + intros e' H. inversion H; same_host; try congruence; status_clash.
  - rewrite E. cbn. eexists. split; [reflexivity|]. split.
    + eapply status_402; eassumption.
    + intros e' H. inversion H; same_host; try congruence; status_clash.
  - rewrite E. cbn. eexists. split; [reflexivity|]. split.
    + eapply status_429; eassumption.
    + intros e' H. inversion H; same_host; try congruence; status_clash.
  - destruct (otherStatus_tests _ E) as (-> & -> & ->).
    destruct (null_or_not (errorDataOf response)) as [D|D].
    { rewrite D. cbn. eexists. split; [reflexivity|]. split.
      - eapply status_other_null; eassumption.
      - intros e' H. inversion H; same_host; try congruence; status_clash. }
    rewrite get_getOptional by assumption. cbn [bind].
    fold (errorMessage response). unfold throwRequestFailed.
    destruct (truthy (errorMessage response)) eqn:T.
    + destruct (errorMessage response) as [m|] eqn:M; [|discriminate].
      destruct (stringifiable m) eqn:S;
        (eexists; split; [reflexivity|]; split;
         [ first [ eapply status_other_message; eassumption
                 | eapply status_other_unprintable; eassumption ]
         | intros e' H; inversion H; same_host; try congruence; status_clash ]).
    + eexists. split; [reflexivity|]. split.
      * eapply status_other_plain; eassumption.
      * intros e' H. inversion H; same_host; try congruence; status_clash.
Qed.

Ltac ok_clash :=
  match goal with
  | A : ok ?r = true, B : ok ?r = false |- _ => rewrite A in B; discriminate B
  | A : hasChoices ?d = true, B : hasChoices ?d = false |- _ =>
      rewrite A in B; discriminate B
  | A : truthy ?d = true, B : truthy ?d = false |- _ =>
      rewrite A in B; discriminate B
  | A : isText ?d = true, B : isText ?d = false |- _ =>
      rewrite A in B; discriminate B
  end.

(** The steps both methods share throw exactly the errors of the table. *)
Lemma exchange_fails {B : Type} (toLowerCase : jsstring -> jsstring)
      (host : Host) (generic : failure) (fallback : jsstring)
      (k : list BusinessPlanSection -> B) (e : failure) :
  tryCatch generic
    (let* response := await (fetched host) in
     let* _ := checkStatus response in
     let* data := await (body response) in
     let* completion := completionOf data in
     let* sections := sectionsOf toLowerCase (orElse completion fallback) in
     inr (k sections)) = inl e
  <-> exchangeFails generic host e.
Proof.
  destruct (fetched host) as [response|r] eqn:F.
  2: { split.
       - intros H. assert (e = rethrown generic r) as ->
           by (destruct r; cbn in H |- *; congruence).
         now apply fetch_rejected.
       - intros H. inversion H; same_host; try congruence.
         now destruct r0. }
  cbn [await bind].
  destruct (checkStatus_cases generic host response F)
    as [[Hok ->]|(Hok & e0 & -> & He0 & Hu)].
  2: { cbn. split; [intros H; now injection H as <- |].
       intros H. now rewrite (Hu _ H). }
  cbn [bind].
  destruct (body response) as [data|r] eqn:Bd.
  2: { split.
       - intros H. assert (e = rethrown generic r) as ->
           by (destruct r; cbn in H |- *; congruence).
         eapply body_rejected; eassumption.
       - intros H. inversion H; same_host; try ok_clash; try congruence.
         now destruct r0. }
  cbn [await bind].
  destruct (completionOf_cases data) as [[Hc ->]|[Hc ->]].
  2: { cbn. split.
       - intros H. injection H as <-. eapply no_choices; eassumption.
       - intros H. inversion H; same_host; try ok_clash; reflexivity. }
  cbn [bind]. unfold orElse.
  destruct (truthy (completionValue data)) eqn:T.
  - destruct (isText (completionValue data)) eqn:X.
    + destruct (completionValue data) as [[| | |s| |]|] eqn:V; try discriminate.
      cbn. split; [discriminate|].
      intros H. inversion H; same_host; try ok_clash.
      rewrite V in *. discriminate.
    + assert (E : sectionsOf toLowerCase (completionValue data)
                  = throw TypeError)
        by (destruct (completionValue data) as [[| | |s| |]|];
            try reflexivity; discriminate).
      rewrite E. cbn. split.
      * intros H. injection H as <-. eapply completion_not_text; eassumption.
      * intros H. inversion H; same_host; try ok_clash; reflexivity.
  - cbn. split; [discriminate|].
    intros H. inversion H; same_host; try ok_clash.
Qed.

(** X10. [generateBusinessPlan] is rejected exactly in these cases.  With
    a missing key (empty or the placeholder) the error is the
    configuration error, whatever the host does.  Otherwise the error is
    the one of the exchange: the rejection of [fetch] or of
    [response.json()], rethrown when it is an [Error] and replaced by the
    generic error when it is not; for a response that is not [ok], the
    error of its status (401, 402, 429, any other); for a response that
    is [ok], a [TypeError] when the body has no [choices] or when the
    completion is neither falsy nor a string. *)
Theorem generate_failures
        (toLowerCase : jsstring -> jsstring) (host : Host)
        (h : heap) (input : BusinessPlanInput) (e : failure) :
  generateBusinessPlan toLowerCase host h input = inl e <->
  (keyMissing host = true /\ e = KeyNotConfigured)
  \/ (keyMissing host = false /\ exchangeFails GenerationFailed host e).
Proof.
  unfold generateBusinessPlan. rewrite <- keyMissing_eq.
  destruct (keyMissing host).
  - split; [intros H; left; split; congruence|].
    intros [[_ ->]|[H _]]; [reflexivity | discriminate].
  - cbv zeta. rewrite exchange_fails. split; [now right|].
    intros [[H _]|[_ H]]; [discriminate | exact H].
Qed.

Lemma generate_failures_witness :
  generateBusinessPlan lowerPlain unconfiguredHost [] acmeInput
  = inl KeyNotConfigured
  /\ generateBusinessPlan lowerPlain rateLimitedHost [] acmeInput
     = inl RateLimited
  /\ generateBusinessPlan lowerPlain offlineHost [] acmeInput
     = inl (HostError (lit "Failed to fetch"))
  /\ generateBusinessPlan lowerPlain emptyBodyHost [] acmeInput
     = inl TypeError.
Proof.
  split; [|split; [|split]].
  - apply (proj2 (generate_failures lowerPlain unconfiguredHost []
                                    acmeInput KeyNotConfigured)).
    left. split; reflexivity.
  - apply (proj2 (generate_failures lowerPlain rateLimitedHost []
                                    acmeInput RateLimited)).
    right. split; [reflexivity|]. eapply status_429; reflexivity.
  - apply (proj2 (generate_failures lowerPlain offlineHost []
                                    acmeInput (HostError (lit "Failed to fetch")))).
    right. split; [reflexivity|].
    exact (fetch_rejected GenerationFailed offlineHost
                          (AnError (lit "Failed to fetch")) eq_refl).
  - apply (proj2 (generate_failures lowerPlain emptyBodyHost []
                                    acmeInput TypeError)).
    right. split; [reflexivity|]. eapply no_choices; reflexivity.
Defined.

(** X11. [modifyBusinessPlan] is rejected exactly in these cases, checked
    in this order: a missing key gives the configuration error whatever
    the plan and the host; a plan that is [undefined] gives a [TypeError]
    before any request is made; otherwise the error is the one of the
    exchange, as for [generateBusinessPlan], with the generic error of
    this method. *)
Theorem modify_failures
        (toLowerCase : jsstring -> jsstring) (host : Host)
        (h : heap) (businessPlan : ref) (e : failure) :
  modifyBusinessPlan toLowerCase host h businessPlan = inl e <->
  (keyMissing host = true /\ e = KeyNotConfigured)
  \/ (keyMissing host = false /\ deref h businessPlan = None /\ e = TypeError)
  \/ (keyMissing host = false /\ deref h businessPlan <> None
      /\ exchangeFails ModificationFailed host e).
Proof.
  unfold modifyBusinessPlan. rewrite <- keyMissing_eq.
  destruct (keyMissing host).
  - split; [intros H; left; split; congruence|].
    intros [[_ ->]|[[H _]|[H _]]]; [reflexivity | discriminate | discriminate].
  - destruct (deref h businessPlan) as [plan|].
    + cbn [bind]. cbv zeta. rewrite exchange_fails. split.
      * intros H. right. right. repeat split; [discriminate | exact H].
      * intros [[H _]|[(_ & H & _)|(_ & _ & H)]];
          [discriminate | discriminate | exact H].
    + cbn. split.
      * intros H. right. left. repeat split; congruence.
      * intros [[H _]|[(_ & _ & ->)|(_ & H & _)]];
          [discriminate | reflexivity | congruence].
Qed.

Lemma modify_failures_witness :
  modifyBusinessPlan lowerPlain unconfiguredHost [] 0 = inl KeyNotConfigured
  /\ modifyBusinessPlan lowerPlain rateLimitedHost [] 0 = inl TypeError
  /\ modifyBusinessPlan lowerPlain rateLimitedHost [acmePlan] 0
     = inl RateLimited
  /\ modifyBusinessPlan lowerPlain emptyBodyHost [acmePlan] 0
     = inl TypeError.
Proof.
  split; [|split; [|split]].
  - apply (proj2 (modify_failures lowerPlain unconfiguredHost [] 0
                                  KeyNotConfigured)).
    left. split; reflexivity.
  - apply (proj2 (modify_failures lowerPlain rateLimitedHost [] 0 TypeError)).
    right. left. repeat split; reflexivity.
  - apply (proj2 (modify_failures lowerPlain rateLimitedHost [acmePlan] 0
                                  RateLimited)).
    right. right. repeat split; [discriminate|].
    eapply status_429; reflexivity.
  - apply (proj2 (modify_failures lowerPlain emptyBodyHost [acmePlan] 0
                                  TypeError)).
    right. right. repeat split; [discriminate|].
    eapply no_choices; reflexivity.
Defined.

(** X12. A body whose [choices] can be read but whose completion is
    missing or falsy ([undefined], [null], [false], zero, the empty
    string) is not an error: both methods return a plan with status
    [complete] whose only section is the fallback section holding the
    text ["Failed to generate business plan."], respectively ["Failed to
    modify business plan."]. *)
Theorem silent_completion_gives_failure_text
        (toLowerCase : jsstring -> jsstring) (host : Host) (h : heap)
        (response : Response) (data : json) :
  LowersPlain toLowerCase ->
  keyMissing host = false ->
  fetched host = Fulfilled response ->
  ok response = true ->
  body response = Fulfilled data ->
  hasChoices data = true ->
  truthy (completionValue data) = false ->
  (forall input,
      generateBusinessPlan toLowerCase host h input
      = inr (h ++ [Plan.make (numberToString (dateNow host))
                             (Input.businessName input ++ businessPlanSuffix)
                             (Input.industry input) (newDate host)
                             [mkSection fallbackTitle failedToGenerate]
                             Plan.complete],
             length h))
  /\ (forall businessPlan plan,
         deref h businessPlan = Some plan ->
         modifyBusinessPlan toLowerCase host h businessPlan
         = inr (h ++ [Plan.make (numberToString (dateNow host))
                                (Plan.title plan ++ modifiedSuffix)
                                (Plan.industry plan) (newDate host)
                                [mkSection fallbackTitle failedToModify]
                                Plan.complete],
                length h)).
Proof.
  intros L Hk F Hok Bd Hc T. rewrite keyMissing_eq in Hk.
  assert (Eg : parseBusinessPlanSections toLowerCase failedToGenerate
               = [mkSection fallbackTitle failedToGenerate]).
  { rewrite (parse_plain _ L) by reflexivity. vm_compute. reflexivity. }
  assert (Em : parseBusinessPlanSections toLowerCase failedToModify
               = [mkSection fallbackTitle failedToModify]).
  { rewrite (parse_plain _ L) by reflexivity. vm_compute. reflexivity. }
  assert (Es : checkStatus response = inr tt)
    by (unfold checkStatus; now rewrite Hok).
  assert (Ec : completionOf data = inr (completionValue data)).
  { destruct (completionOf_cases data) as [[_ E]|[E _]]; [exact E|].
    rewrite Hc in E. discriminate. }
  split.
  - intros input. unfold generateBusinessPlan.
    rewrite Hk, F. cbn [await bind]. rewrite Es. cbn [bind].
    rewrite Bd. cbn [await bind]. rewrite Ec. cbn [bind].
    unfold orElse. rewrite T. cbn [sectionsOf bind tryCatch].
    now rewrite Eg.
  - intros businessPlan plan D. unfold modifyBusinessPlan.
    rewrite Hk, D, F. cbn [await bind]. rewrite Es. cbn [bind].
    rewrite Bd. cbn [await bind]. rewrite Ec. cbn [bind].
    unfold orElse. rewrite T. cbn [sectionsOf bind tryCatch].
    now rewrite Em.
Qed.

Lemma silent_completion_gives_failure_text_witness :
  generateBusinessPlan lowerPlain silentHost [acmePlan] acmeInput
  = inr ([acmePlan;
          Plan.make (lit "1700000004321") (lit "Acme Business Plan")
                    (lit "Retail") 1700000004321
                    [mkSection fallbackTitle failedToGenerate] Plan.complete],
         1)
  /\ modifyBusinessPlan lowerPlain silentHost [acmePlan] 0
     = inr ([acmePlan;
             Plan.make (lit "1700000004321")
                       (lit "Acme Business Plan (Modified)")
                       (lit "Retail") 1700000004321
                       [mkSection fallbackTitle failedToModify] Plan.complete],
            1).
Proof.
  destruct (silent_completion_gives_failure_text lowerPlain silentHost [acmePlan]
              (mkResponse true 200 (Fulfilled (JObject [(lit "choices", JArray [])])))
              (JObject [(lit "choices", JArray [])])
              lowerPlain_lowers eq_refl eq_refl eq_refl eq_refl eq_refl eq_refl)
    as [G M].
  split; [exact (G acmeInput) | exact (M 0 acmePlan eq_refl)].
Defined.

(* ================================================================== *)
(** ** Properties of [validateForm] *)

Lemma trim_nonEmpty (s : jsstring) : nonEmpty (trim s) = solid s.
Proof.
  destruct (solid s) eqn:E.
  - apply solid_nonEmpty. now rewrite trim_solid.
  - now rewrite (trim_blank s (not_solid_blank s E)).
Qed.

Lemma spaceCapitals_flat_map (name : jsstring) :
  spaceCapitals name
  = flat_map (fun c => if isCapital c then [SPACE; c] else [c]) name.
Proof.
  unfold spaceCapitals. generalize (@None char).
  induction name as [|c t IH]; intros prev; [reflexivity|].
  cbn [replaceEach flat_map]. unfold reCapital. rewrite exec_one.
  destruct (isCapital c); cbn [option_map exec firstn app]; now rewrite IH.
Qed.

Section ValidateFacts.

Variable toLowerCase : jsstring -> jsstring.
Hypothesis lowers : LowersPlain toLowerCase.

Lemma field_words (k : fieldKey) :
  toLowerCase (spaceCapitals (keyName k)) = fieldWords k.
Proof. destruct k; rewrite lowers by reflexivity; vm_compute; reflexivity. Qed.

Lemma validateFields_find (formData : BusinessPlanInput) :
  forall fields,
    validateFields toLowerCase formData fields
    = option_map (fun k => lit "Please fill in the " ++ fieldWords k
                               ++ lit " field")
                 (find (fun k => negb (solid (field formData k))) fields).
Proof.
  induction fields as [|k r IH]; [reflexivity|].
  cbn [validateFields find]. rewrite trim_nonEmpty, field_words, IH.
  now destruct (solid (field formData k)).
Qed.

End ValidateFacts.

(** X13. [validateForm] accepts a form exactly when each of the six
    required fields has a code unit that is not whitespace; the revenue
    model and the goals are not looked at.  When it rejects, the error
    names the first such field in the order of the form, in lower-case
    words: ["Please fill in the business name field"], and so on. *)
Theorem validateForm_first_blank_field
        (toLowerCase : jsstring -> jsstring) :
  (forall formData,
      validateForm toLowerCase formData = None <->
      forallb (fun k => solid (field formData k)) requiredFields = true)
  /\ (forall name ind type loc aud val rm1 g1 rm2 g2,
         validateForm toLowerCase (Input.make name ind type loc aud val rm1 g1)
         = validateForm toLowerCase (Input.make name ind type loc aud val rm2 g2))
  /\ (LowersPlain toLowerCase ->
      forall formData,
        validateForm toLowerCase formData
        = option_map (fun k => lit "Please fill in the " ++ fieldWords k
                                   ++ lit " field")
                     (firstBlank formData)).
Proof.
  split; [|split].
  - intros formData. unfold validateForm.
    induction requiredFields as [|k r IH]; [easy|].
    cbn [validateFields forallb]. rewrite trim_nonEmpty.
    destruct (solid (field formData k)); [exact IH | easy].
  - reflexivity.
  - intros L formData. apply (validateFields_find _ L).
Qed.

Lemma validateForm_first_blank_field_witness :
  validateForm lowerPlain noLocation
  = Some (lit "Please fill in the location field").
Proof.
  exact (proj2 (proj2 (validateForm_first_blank_field lowerPlain))
           lowerPlain_lowers noLocation).
Defined.

(* ================================================================== *)
(** ** The exported text and the text given back to the model *)

Lemma fold_blocks {A : Type} (blk : A -> jsstring) (step : jsstring -> A -> jsstring) :
  (forall acc x, step acc x = acc ++ blk x) ->
  forall xs init, fold_left step xs init = init ++ concat (map blk xs).
Proof.
  intros Hs. induction xs as [|x xs IH]; intros init; simpl.
  - now rewrite app_nil_r.
  - now rewrite IH, Hs, <- app_assoc.
Qed.

Lemma concat_map_split {A : Type} (blk : A -> jsstring) (pre post : list A) (x : A) :
  concat (map blk (pre ++ x :: post))
  = concat (map blk pre) ++ blk x ++ concat (map blk post).
Proof. now rewrite map_app, concat_app. Qed.

(** X14. The text given back to the model opens with the plan's title
    line and industry line, and then holds one block per section, in the
    order of the plan: the title, a line feed, the content as it is, two
    line feeds.  So every section's title and content occur in it
    unaltered. *)
Theorem modification_text_keeps_sections (plan : GeneratedBusinessPlan) :
  formatBusinessPlanForModification plan
  = Plan.title plan ++ [LF] ++ lit "Industry: " ++ Plan.industry plan
      ++ [LF; LF] ++ concat (map modificationBlock (Plan.sections plan))
  /\ forall pre section post,
      Plan.sections plan = pre ++ section :: post ->
      exists before,
        formatBusinessPlanForModification plan
        = before ++ modificationBlock section
                 ++ concat (map modificationBlock post).
Proof.
  assert (E : formatBusinessPlanForModification plan
              = Plan.title plan ++ [LF] ++ lit "Industry: "
                  ++ Plan.industry plan ++ [LF; LF]
                  ++ concat (map modificationBlock (Plan.sections plan))).
  { unfold formatBusinessPlanForModification.
    rewrite (fold_blocks modificationBlock).
    - now rewrite <- !app_assoc.
    - intros acc x. unfold modificationBlock. now rewrite <- !app_assoc. }
  split; [exact E|]. intros pre section post Hs.
  rewrite E, Hs, concat_map_split.
  exists (Plan.title plan ++ [LF] ++ lit "Industry: " ++ Plan.industry plan
            ++ [LF; LF] ++ concat (map modificationBlock pre)).
  now rewrite <- !app_assoc.
Qed.

Lemma modification_text_keeps_sections_witness :
  exists before,
    formatBusinessPlanForModification acmePlan
    = before ++ modificationBlock (mkSection executiveSummary (lit "We sell."))
             ++ concat (map modificationBlock []).
Proof.
  exact (proj2 (modification_text_keeps_sections acmePlan)
           [] (mkSection executiveSummary (lit "We sell.")) [] eq_refl).
Defined.

(** X15. The exported text opens with the title, industry and date
    lines and a rule of fifty equals signs, and then holds one block per
    section, in the order of the plan: the title, a rule of as many
    dashes as the title has code units, and the content as it is. *)
Theorem export_text_keeps_sections
        (toLocaleDateString : Z -> jsstring) (plan : GeneratedBusinessPlan) :
  formatBusinessPlanForExport toLocaleDateString plan
  = Plan.title plan ++ [LF] ++ lit "Industry: " ++ Plan.industry plan ++ [LF]
      ++ lit "Created: " ++ toLocaleDateString (Plan.createdAt plan) ++ [LF; LF]
      ++ repeat EQUALS 50 ++ [LF; LF]
      ++ concat (map exportBlock (Plan.sections plan))
  /\ forall pre section post,
      Plan.sections plan = pre ++ section :: post ->
      exists before,
        formatBusinessPlanForExport toLocaleDateString plan
        = before ++ exportBlock section ++ concat (map exportBlock post).
Proof.
  assert (E : formatBusinessPlanForExport toLocaleDateString plan
              = Plan.title plan ++ [LF] ++ lit "Industry: "
                  ++ Plan.industry plan ++ [LF]
                  ++ lit "Created: "
                  ++ toLocaleDateString (Plan.createdAt plan) ++ [LF; LF]
                  ++ repeat EQUALS 50 ++ [LF; LF]
                  ++ concat (map exportBlock (Plan.sections plan))).
  { unfold formatBusinessPlanForExport.
    rewrite (fold_blocks exportBlock).
    - now rewrite <- !app_assoc.
    - intros acc x. unfold exportBlock. now rewrite <- !app_assoc. }
  split; [exact E|]. intros pre section post Hs.
  rewrite E, Hs, concat_map_split.
  exists (Plan.title plan ++ [LF] ++ lit "Industry: " ++ Plan.industry plan
            ++ [LF] ++ lit "Created: "
            ++ toLocaleDateString (Plan.createdAt plan) ++ [LF; LF]
            ++ repeat EQUALS 50 ++ [LF; LF] ++ concat (map exportBlock pre)).
  now rewrite <- !app_assoc.
Qed.

Lemma export_text_keeps_sections_witness :
  exists before,
    formatBusinessPlanForExport (fun _ => lit "11/14/2023") acmePlan
    = before ++ exportBlock (mkSection executiveSummary (lit "We sell."))
             ++ concat (map exportBlock []).
Proof.
  exact (proj2 (export_text_keeps_sections (fun _ => lit "11/14/2023") acmePlan)
           [] (mkSection executiveSummary (lit "We sell.")) [] eq_refl).
Defined.
